(** * axlearn: input dispatch ([input_base.py]) and the TPU attention
    benchmark ([tpu_attention_benchmark.py])

    A shallow embedding of the two Python modules.  A computation is a
    function from the trace of calls made so far to a result, or a Python
    exception of [Py.Exn], and the trace it leaves.  The calls into JAX,
    absl logging, [re], [time] and the parts of axlearn that the two
    modules import are the events of the trace; what they return is given
    by the classes [JaxRuntime], [ReEngine] and [AxlearnUtils] for
    [input_base.py] and by [Numerics] and [World] for the benchmark.

    Those calls are taken to return: an exception raised inside JAX or
    inside a callable handed to [_time_call] is outside the model.
    [assert] statements are executed (the interpreter does not run with
    [-O]). *)

From Stdlib Require Import ZArith List String Bool Lia.
Import ListNotations.
Local Open Scope Z_scope.

(** ** Python plumbing: exceptions and a trace monad *)

Module Py.

Inductive Exn : Type :=
| ValueError (msg : string)
| TypeError (msg : string)
| IndexError
| KeyError (key : string)
| AttributeError (name : string)
| ZeroDivisionError
| AssertionError (msg : string)
| NotImplementedError (msg : string)
| ReError (pattern : string).

Inductive Result (A : Type) : Type :=
| Ok (a : A)
| Raise (e : Exn).
Arguments Ok {A} a.
Arguments Raise {A} e.

(** A computation reads the trace of calls made so far and extends it;
    an exception stops it and keeps the trace reached. *)
Definition M (E A : Type) : Type := list E -> Result A * list E.

Definition ret {E A} (a : A) : M E A := fun t => (Ok a, t).

Definition bind {E A B} (m : M E A) (k : A -> M E B) : M E B :=
  fun t =>
    match m t with
    | (Ok a, t') => k a t'
    | (Raise e, t') => (Raise e, t')
    end.

Definition raise {E A} (e : Exn) : M E A := fun t => (Raise e, t).

Definition emit {E} (e : E) : M E unit := fun t => (Ok tt, t ++ [e]).

Definition lift {E A} (r : Result A) : M E A := fun t => (r, t).

(** [assert cond, msg] *)
Definition py_assert {E} (cond : bool) (msg : string) : M E unit :=
  if cond then ret tt else raise (AssertionError msg).

(** [a % b] on Python ints; Python's result takes the sign of the divisor,
    as [Z.modulo] does. *)
Definition py_mod (a b : Z) : Result Z :=
  if b =? 0 then Raise ZeroDivisionError else Ok (a mod b).

(** A computation is uniform when what it returns and the calls it makes
    do not depend on the trace it starts from. *)
Definition uniform {E A} (m : M E A) : Prop :=
  forall t, m t = (fst (m []), t ++ snd (m [])).

Module Notations.
  Declare Scope py_scope.
  Delimit Scope py_scope with py.
  Notation "x <- m ;; k" := (bind m (fun x => k))
    (at level 61, m at next level, right associativity) : py_scope.
  Notation "m ;; k" := (bind m (fun _ => k))
    (at level 61, right associativity) : py_scope.
End Notations.

End Py.

Import Py Py.Notations.
Local Open Scope py_scope.

(** ** [axlearn/common/input_base.py] *)

Module InputBase.

(** One entry of a [jax.sharding.PartitionSpec]: [None], an axis name, a
    tuple of axis names, or [PartitionSpec.UNCONSTRAINED]. *)
Inductive SpecEntry : Type :=
| ENone
| EAxis (axis : string)
| EAxes (axes : list string)
| EUnconstrained.

Definition PartitionSpec : Type := list SpecEntry.

(** What a rule of [path_rank_to_partition] maps to: [None] (replicate),
    the sentinel [PartitionSpec.UNCONSTRAINED], or a partition spec. *)
Inductive RuleSpec : Type :=
| RNone
| RUnconstrained
| RSpec (spec : PartitionSpec).

(** [partition_spec is not PartitionSpec.UNCONSTRAINED] *)
Definition is_not_UNCONSTRAINED (s : RuleSpec) : bool :=
  match s with RUnconstrained => false | _ => true end.

(** [thread_resources.env.physical_mesh], as far as the module reads it. *)
Record Mesh : Type := {
  empty : bool;
  size : Z;
  mesh_shape : list (string * Z)
}.

(** [Nested[Tensor]]: a tensor, or a dict from strings to nested values.
    The pairs of a [Dict] are listed in the order jax.tree flattens them. *)
#[local] Unset Elimination Schemes.
Inductive Nested (A : Type) : Type :=
| Leaf (a : A)
| Dict (items : list (string * Nested A)).
#[local] Set Elimination Schemes.
Arguments Leaf {A} a.
Arguments Dict {A} items.

(** Induction over a nested value and the values of its dicts. *)
Fixpoint Nested_ind {A : Type} (P : Nested A -> Prop)
    (HLeaf : forall a, P (Leaf a))
    (HDict : forall items, Forall (fun kc => P (snd kc)) items -> P (Dict items))
    (t : Nested A) : P t :=
  match t with
  | Leaf a => HLeaf a
  | Dict items =>
      HDict items
        ((fix go (l : list (string * Nested A)) : Forall (fun kc => P (snd kc)) l :=
            match l with
            | [] => Forall_nil _
            | kc :: rest =>
                Forall_cons kc (Nested_ind P HLeaf HDict (snd kc)) (go rest)
            end) items)
  end.

Definition join_path (prefix key : string) : string :=
  match prefix with
  | EmptyString => key
  | _ => (prefix ++ "/" ++ key)%string
  end.

(** Modelled from the spec: [tree_paths] of [axlearn.common.utils] is not
    among the sources; the spec only says that rules are matched by path.
    It returns a tree of the same structure whose leaves are the paths of
    the leaves, the keys joined by "/". *)
Fixpoint tree_paths_from {A : Type} (prefix : string) (t : Nested A)
    : Nested string :=
  match t with
  | Leaf _ => Leaf prefix
  | Dict items =>
      Dict (map (fun kc =>
                   (fst kc, tree_paths_from (join_path prefix (fst kc)) (snd kc)))
              items)
  end.

Definition tree_paths {A : Type} (t : Nested A) : Nested string :=
  tree_paths_from "" t.

(** The leaves with their paths, in flattening order. *)
Fixpoint leaves_from {A : Type} (prefix : string) (t : Nested A)
    : list (string * A) :=
  match t with
  | Leaf a => [(prefix, a)]
  | Dict items =>
      flat_map (fun kc => leaves_from (join_path prefix (fst kc)) (snd kc)) items
  end.

Definition leaves_with_paths {A : Type} (t : Nested A) : list (string * A) :=
  leaves_from "" t.

(** The tree with every leaf replaced by [g path leaf]. *)
Fixpoint tree_mapi {A B : Type} (g : string -> A -> B) (prefix : string)
    (t : Nested A) : Nested B :=
  match t with
  | Leaf a => Leaf (g prefix a)
  | Dict items =>
      Dict (map (fun kc =>
                   (fst kc, tree_mapi g (join_path prefix (fst kc)) (snd kc)))
              items)
  end.

(** The items of two dicts walked together, as jax.tree does for the
    children of a dict node. *)
Fixpoint map2M {E X Y Z : Type} (g : X -> Y -> M E Z)
    (pl : list (string * X)) (l : list (string * Y)) {struct l}
    : M E (list (string * Z)) :=
  match l, pl with
  | [], [] => ret []
  | (k, c) :: rest, (pk, pc) :: prest =>
      if String.eqb pk k then
        c' <- g pc c ;;
        rest' <- map2M g prest rest ;;
        ret ((k, c') :: rest')
      else raise (ValueError "Dict key mismatch")
  | _, _ => raise (ValueError "Dict key mismatch")
  end.

(** [jax.tree.map(f, paths, tree)]: flattens [paths], flattens [tree] up
    to the structure of [paths], and calls [f] on the pairs of leaves in
    order.  A structure mismatch raises [ValueError]. *)
Fixpoint tree_map2 {E A B : Type} (f : string -> A -> M E B)
    (paths : Nested string) (t : Nested A) {struct t} : M E (Nested B) :=
  match t, paths with
  | Leaf a, Leaf p => b <- f p a ;; ret (Leaf b)
  | Dict items, Dict pitems =>
      items' <- map2M (fun pc c => tree_map2 f pc c) pitems items ;;
      ret (Dict items')
  | _, _ => raise (ValueError "Custom node type mismatch")
  end.

(** What [f] does over the leaves in flattening order: the first exception
    raised, if any, and the calls made up to there. *)
Fixpoint scan {E A B : Type} (f : string -> A -> M E B)
    (l : list (string * A)) : option Exn * list E :=
  match l with
  | [] => (None, [])
  | (p, v) :: rest =>
      match f p v [] with
      | (Ok _, evs) => (fst (scan f rest), evs ++ snd (scan f rest))
      | (Raise e, evs) => (Some e, evs)
      end
  end.

(** The leaf [f] returns for [v] (and [v] itself where [f] raises). *)
Definition leaf_value {E A : Type} (f : string -> A -> M E A)
    (p : string) (v : A) : A :=
  match fst (f p v []) with
  | Ok b => b
  | Raise _ => v
  end.

(** An insertion-ordered Python dict as an association list:
    [d[k] = v] replaces the value of an equal key where it stands, and
    appends a new key at the end. *)
Fixpoint dict_set {K V : Type} (K_eqb : K -> K -> bool) (k : K) (v : V)
    (d : list (K * V)) : list (K * V) :=
  match d with
  | [] => [(k, v)]
  | (k', v') :: rest =>
      if K_eqb k' k then (k', v) :: rest
      else (k', v') :: dict_set K_eqb k v rest
  end.

(** *** The runtime the module runs against *)

(** [jax.Array] with its [shape], and [with_sharding_constraint] of
    [axlearn.common.utils].  The field gives the array that a call
    returns.  JAX refuses some calls (under [jit], a value with fewer
    dimensions than the spec has entries is a [ValueError]), and the
    embedding does not model those refusals: what it says of a run that
    makes such a call holds of the runs in which JAX accepts the call. *)
Class JaxRuntime : Type := {
  Tensor : Type;
  shape : Tensor -> list Z;
  with_sharding_constraint : Tensor -> RuleSpec -> Tensor
}.

(** Python's [re]: [Pattern] is a compiled [re.Pattern], compared as Python
    compares patterns; [re_compile] is [re.compile] on a string ([None]
    when it raises [re.error]). *)
Class ReEngine : Type := {
  Pattern : Type;
  Pattern_eq_dec : forall p q : Pattern, {p = q} + {p <> q};
  re_compile : string -> option Pattern;
  re_fullmatch : Pattern -> string -> bool
}.

Section Runtime.
Context {J : JaxRuntime} {R : ReEngine}.

Definition Batch : Type := Nested Tensor.

Definition ndim (value : Tensor) : Z := Z.of_nat (List.length (shape value)).

(** [BaseInputDispatcher], as far as [Input] calls it. *)
Record BaseInputDispatcher : Type := {
  logical_to_physical_batch : Batch -> Batch;
  physical_to_logical_batch : Batch -> Batch;
  dispatcher_partition_spec : PartitionSpec
}.

(** The rest of [axlearn.common.utils] and of the module system that
    [Input] calls: [as_numpy_array], [dispatch_input_batch],
    [input_partition_spec()], and the instantiation of an
    [InputDispatcher.Config] by [_add_child] with [partition_spec] set by
    [maybe_set_config].  None of them is among the sources. *)
Class AxlearnUtils : Type := {
  as_numpy_array : Batch -> Batch;
  dispatch_input_batch : Batch -> SpecEntry -> Batch;
  input_partition_spec : PartitionSpec;
  DispatcherConfig : Type;
  instantiate_dispatcher :
    DispatcherConfig -> option PartitionSpec -> BaseInputDispatcher
}.

(** A rule key as the caller writes it: [PathAndRank(path, rank)], where
    [path] is [None], a regex string or a compiled [re.Pattern]. *)
Inductive PathKey : Type :=
| PStr (regex : string)
| PPat (p : Pattern).

Record PathAndRank : Type := {
  path : option PathKey;
  rank : option Z
}.

(** The calls the module makes, in the order it makes them. *)
Inductive Event : Type :=
| EvFullmatch (p : Pattern) (path : string)
| EvShardingConstraint (value : Tensor) (spec : RuleSpec)
| EvLogFirstN (msg : string) (n : Z) (path : string) (spec : RuleSpec)
| EvLogWarning (msg : string) (path : string) (dim parts : Z)
    (spec : PartitionSpec)
| EvPhysicalToLogical (batch : Batch)
| EvDispatchInputBatch (batch : Batch) (batch_axis_names : SpecEntry).

(** [InputPartitionFn.__call__], run within a mesh. *)
Definition InputPartitionFn : Type := Mesh -> Batch -> M Event Batch.

(** A key of the [compiled] dict: [(regex, rank)] after compilation. *)
Definition CKey : Type := (option Pattern * option Z)%type.

Definition CKey_eqb (a b : CKey) : bool :=
  match fst a, fst b with
  | None, None => true
  | Some p, Some q => if Pattern_eq_dec p q then true else false
  | _, _ => false
  end
  &&
  match snd a, snd b with
  | None, None => true
  | Some m, Some n => m =? n
  | _, _ => false
  end.

(** [re.compile(regex)]: a string is compiled, a pattern is returned as
    it is. *)
Definition compile_key (k : PathKey) : Result Pattern :=
  match k with
  | PStr s =>
      match re_compile s with
      | Some p => Ok p
      | None => Raise (ReError s)
      end
  | PPat p => Ok p
  end.

(** [regex] after [if regex is not None: regex = re.compile(regex)]. *)
Definition compile_path (k : option PathKey) : Result (option Pattern) :=
  match k with
  | None => Ok None
  | Some regex =>
      match compile_key regex with
      | Ok p => Ok (Some p)
      | Raise e => Raise e
      end
  end.

(** The loop that fills [compiled]. *)
Fixpoint compile_rules (items : list (PathAndRank * RuleSpec))
    (compiled : list (CKey * RuleSpec)) : Result (list (CKey * RuleSpec)) :=
  match items with
  | [] => Ok compiled
  | (pr, spec) :: rest =>
      match compile_path (path pr) with
      | Ok regex =>
          compile_rules rest (dict_set CKey_eqb (regex, rank pr) spec compiled)
      | Raise e => Raise e
      end
  end.

(** [len(input_batch)]: the number of keys of a dict, the 0th dimension
    of an array, [TypeError] for a 0-d array. *)
Definition py_len (input_batch : Batch) : Result Z :=
  match input_batch with
  | Dict items => Ok (Z.of_nat (List.length items))
  | Leaf a =>
      match shape a with
      | d :: _ => Ok d
      | [] => Raise (TypeError "len() of unsized object")
      end
  end.

Definition no_rules_matched (path : string) : string :=
  ("No rules matched input_batch['" ++ path ++ "']. "
   ++ "If you intended to leave the input unconstrained, "
   ++ "specify `PartitionSpec.UNCONSTRAINED` explicitly.")%string.

(** [rank is None or value.ndim == rank] *)
Definition rank_matches (rank : option Z) (value : Tensor) : bool :=
  match rank with
  | None => true
  | Some r => ndim value =? r
  end.

(** [path_regex is None or re.fullmatch(path_regex, path)] *)
Definition regex_matches (path_regex : option Pattern) (path : string)
    : M Event bool :=
  match path_regex with
  | None => ret true
  | Some p => emit (EvFullmatch p path) ;; ret (re_fullmatch p path)
  end.

(** [maybe_constrain] of [fn], closed over [compiled] and [input_batch]. *)
Fixpoint maybe_constrain (compiled : list (CKey * RuleSpec))
    (input_batch : Batch) (path : string) (value : Tensor)
    : M Event Tensor :=
  match compiled with
  | [] => raise (ValueError (no_rules_matched path))
  | ((path_regex, rank), partition_spec) :: rest =>
      if negb (rank_matches rank value) then
        maybe_constrain rest input_batch path value
      else
        matched <- regex_matches path_regex path ;;
        if negb matched then maybe_constrain rest input_batch path value
        else if is_not_UNCONSTRAINED partition_spec then
          emit (EvShardingConstraint value partition_spec) ;;
          n <- lift (py_len input_batch) ;;
          emit (EvLogFirstN "Constraining input_batch[%s] with %s." n path
                  partition_spec) ;;
          ret (with_sharding_constraint value partition_spec)
        else ret value
  end.

(** [fn] of [partition_by_path_rank]. *)
Definition fn (compiled : list (CKey * RuleSpec)) : InputPartitionFn :=
  fun mesh input_batch =>
    if empty mesh || (size mesh =? 1) then ret input_batch
    else
      tree_map2 (maybe_constrain compiled input_batch)
        (tree_paths input_batch) input_batch.

Definition partition_by_path_rank
    (path_rank_to_partition : list (PathAndRank * RuleSpec))
    : Result InputPartitionFn :=
  match compile_rules path_rank_to_partition [] with
  | Ok compiled => Ok (fn compiled)
  | Raise e => Raise e
  end.

(** Whether a key of [compiled] matches a leaf: the test of
    [maybe_constrain], without its calls. *)
Definition ckey_matches (k : CKey) (p : string) (v : Tensor) : bool :=
  rank_matches (snd k) v
  && match fst k with
     | None => true
     | Some pat => re_fullmatch pat p
     end.

(** Whether a rule of the given mapping matches a leaf: its rank is [None]
    or the leaf's [ndim], and its path is [None] or full-matches the path. *)
Definition rule_matches (r : PathAndRank) (p : string) (v : Tensor) : bool :=
  rank_matches (rank r) v
  && match compile_path (path r) with
     | Ok None => true
     | Ok (Some pat) => re_fullmatch pat p
     | Raise _ => false
     end.

(** The spec of the first rule of the given mapping, in mapping order,
    that matches the leaf. *)
Fixpoint first_match (rules : list (PathAndRank * RuleSpec)) (p : string)
    (v : Tensor) : option RuleSpec :=
  match rules with
  | [] => None
  | (r, spec) :: rest =>
      if rule_matches r p v then Some spec else first_match rest p v
  end.

(** The same over the keys of [compiled]. *)
Fixpoint first_ckey_match (compiled : list (CKey * RuleSpec)) (p : string)
    (v : Tensor) : option RuleSpec :=
  match compiled with
  | [] => None
  | (k, spec) :: rest =>
      if ckey_matches k p v then Some spec else first_ckey_match rest p v
  end.

(** A leaf constrained according to a rule's spec. *)
Definition constrain_by (spec : RuleSpec) (v : Tensor) : Tensor :=
  if is_not_UNCONSTRAINED spec then with_sharding_constraint v spec else v.

(** The rules with their keys compiled, one entry per rule. *)
Fixpoint compile_items (items : list (PathAndRank * RuleSpec))
    : Result (list (CKey * RuleSpec)) :=
  match items with
  | [] => Ok []
  | (pr, spec) :: rest =>
      match compile_path (path pr), compile_items rest with
      | Ok regex, Ok l => Ok (((regex, rank pr), spec) :: l)
      | Raise e, _ => Raise e
      | _, Raise e => Raise e
      end
  end.

(** *** [class Input] *)

Context {U : AxlearnUtils}.

Record Config : Type := {
  partition_spec : option PartitionSpec;
  cfg_input_dispatcher : option DispatcherConfig;
  cfg_input_partitioner : option InputPartitionFn
}.

Record Input : Type := {
  _partition_spec : PartitionSpec;
  children : list (string * BaseInputDispatcher);
  input_dispatcher : option BaseInputDispatcher;
  _input_partitioner : option InputPartitionFn
}.

(** [cfg.partition_spec or input_partition_spec()]: [None] and the empty
    spec are falsy. *)
Definition partition_spec_or_default (s : option PartitionSpec)
    : PartitionSpec :=
  match s with
  | Some (e :: es) => e :: es
  | _ => input_partition_spec
  end.

(** [Input.__init__] *)
Definition Input_init (cfg : Config) : Input :=
  let d :=
    match cfg_input_dispatcher cfg with
    | Some dcfg => Some (instantiate_dispatcher dcfg (partition_spec cfg))
    | None => None
    end in
  {| _partition_spec := partition_spec_or_default (partition_spec cfg);
     children :=
       match d with
       | Some child => [("input_dispatcher"%string, child)]
       | None => []
       end;
     input_dispatcher := d;
     _input_partitioner := cfg_input_partitioner cfg |}.

(** ["input_dispatcher" in self.children] *)
Definition has_input_dispatcher (self : Input) : bool :=
  existsb (fun kc => String.eqb (fst kc) "input_dispatcher") (children self).

(** [self.input_dispatcher] *)
Definition get_input_dispatcher (self : Input) : Result BaseInputDispatcher :=
  match input_dispatcher self with
  | Some d => Ok d
  | None => Raise (AttributeError "input_dispatcher")
  end.

(** The body of the loop of [Input.batches], up to its [yield]. *)
Definition batches_body (self : Input) (input_batch : Batch) : Result Batch :=
  let input_batch := as_numpy_array input_batch in
  if has_input_dispatcher self then
    match get_input_dispatcher self with
    | Ok d => Ok (logical_to_physical_batch d input_batch)
    | Raise e => Raise e
    end
  else Ok input_batch.

(** [__next__] of the generator [self.batches(it)].  The iterator [it] is
    a state with its own [__next__] ([None] is [StopIteration]); one item
    is pulled from it for each item yielded. *)
Definition batches_next {Iter : Type} (next : Iter -> option (Batch * Iter))
    (self : Input) (it : Iter) : option (Result Batch * Iter) :=
  match next it with
  | None => None
  | Some (input_batch, it') => Some (batches_body self input_batch, it')
  end.

(** The first [n] items of an iterator. *)
Fixpoint take_iter {Iter X : Type} (next : Iter -> option (X * Iter))
    (n : nat) (it : Iter) : list X :=
  match n with
  | O => []
  | S n' =>
      match next it with
      | None => []
      | Some (x, it') => x :: take_iter next n' it'
      end
  end.

(** [self._partition_spec[0]] *)
Definition spec_getitem0 (s : PartitionSpec) : Result SpecEntry :=
  match s with
  | e :: _ => Ok e
  | [] => Raise IndexError
  end.

(** [jax.tree.leaves] of one entry of a partition spec; the
    [UNCONSTRAINED] sentinel is a leaf that is no axis name. *)
Definition entry_leaves (e : SpecEntry) : list (option string) :=
  match e with
  | ENone => []
  | EAxis a => [Some a]
  | EAxes l => map Some l
  | EUnconstrained => [None]
  end.

(** [mesh.shape[axis]] *)
Fixpoint shape_lookup (sh : list (string * Z)) (axis : string) : Result Z :=
  match sh with
  | [] => Raise (KeyError axis)
  | (a, n) :: rest => if String.eqb a axis then Ok n else shape_lookup rest axis
  end.

(** [math.prod(mesh.shape[axis] for axis in leaves)] *)
Fixpoint prod_axes (mesh : Mesh) (leaves : list (option string)) : Result Z :=
  match leaves with
  | [] => Ok 1
  | None :: _ => Raise (KeyError "UNCONSTRAINED")
  | Some axis :: rest =>
      match shape_lookup (mesh_shape mesh) axis with
      | Ok n =>
          match prod_axes mesh rest with
          | Ok m => Ok (n * m)
          | Raise e => Raise e
          end
      | Raise e => Raise e
      end
  end.

(** [value.shape[0]] *)
Definition shape0 (value : Tensor) : Result Z :=
  match shape value with
  | d :: _ => Ok d
  | [] => Raise IndexError
  end.

Definition constrain_warning : string :=
  "Attempting to constrain path=%s (with batch dim %d) over %d partitions (%s).".

(** [constrain_batch_axis] of [dispatch_global_batch]. *)
Definition constrain_batch_axis (self : Input) (mesh : Mesh)
    (path : string) (value : Tensor) : M Event Tensor :=
  entry <- lift (spec_getitem0 (_partition_spec self)) ;;
  batch_partitions <- lift (prod_axes mesh (entry_leaves entry)) ;;
  dim <- lift (shape0 value) ;;
  r <- lift (py_mod dim batch_partitions) ;;
  (if negb (r =? 0) then
     emit (EvLogWarning constrain_warning path dim batch_partitions
             (_partition_spec self))
   else ret tt) ;;
  emit (EvShardingConstraint value (RSpec (_partition_spec self))) ;;
  ret (with_sharding_constraint value (RSpec (_partition_spec self))).

(** [jax.tree.map(constrain_batch_axis, tree_paths(batch), batch)] *)
Definition constrain_batch (self : Input) (mesh : Mesh) (batch : Batch)
    : M Event Batch :=
  tree_map2 (constrain_batch_axis self mesh) (tree_paths batch) batch.

(** [Input.dispatch_global_batch] *)
Definition dispatch_global_batch (self : Input) (mesh : Mesh)
    (global_physical_batch : Batch) : M Event Batch :=
  global_logical_batch <-
    (if has_input_dispatcher self then
       d <- lift (get_input_dispatcher self) ;;
       constrained <- constrain_batch self mesh global_physical_batch ;;
       emit (EvPhysicalToLogical constrained) ;;
       ret (physical_to_logical_batch d constrained)
     else
       batch_axis_names <- lift (spec_getitem0 (_partition_spec self)) ;;
       emit (EvDispatchInputBatch global_physical_batch batch_axis_names) ;;
       ret (dispatch_input_batch global_physical_batch batch_axis_names)) ;;
  global_logical_batch <- constrain_batch self mesh global_logical_batch ;;
  match _input_partitioner self with
  | Some partitioner => partitioner mesh global_logical_batch
  | None => ret global_logical_batch
  end.

(** The last step of [dispatch_global_batch]. *)
Definition apply_partitioner (self : Input) (mesh : Mesh) (batch : Batch)
    : M Event Batch :=
  match _input_partitioner self with
  | Some partitioner => partitioner mesh batch
  | None => ret batch
  end.

(** A batch with every leaf constrained by [self._partition_spec]. *)
Definition constrained (self : Input) (batch : Batch) : Batch :=
  tree_mapi (fun _ v => with_sharding_constraint v (RSpec (_partition_spec self)))
    "" batch.

(** The calls [constrain_batch_axis] makes for one leaf over
    [parts] batch partitions. *)
Definition batch_axis_events (self : Input) (parts : Z) (p : string)
    (v : Tensor) : list Event :=
  match shape v with
  | d :: _ =>
      (if negb (d mod parts =? 0) then
         [EvLogWarning constrain_warning p d parts (_partition_spec self)]
       else [])
      ++ [EvShardingConstraint v (RSpec (_partition_spec self))]
  | [] => []
  end.

Definition constrain_events (self : Input) (parts : Z) (batch : Batch)
    : list Event :=
  flat_map (fun pv => batch_axis_events self parts (fst pv) (snd pv))
    (leaves_with_paths batch).

(** Every leaf has a 0th dimension. *)
Definition all_batched (batch : Batch) : Prop :=
  Forall (fun pv => shape (snd pv) <> []) (leaves_with_paths batch).

(** [dispatch_global_batch] as the sentence about it reads: every leaf of
    the physical batch is constrained first; the result is converted by the
    dispatcher if one is configured and by [dispatch_input_batch]
    otherwise; the logical batch is constrained again; the partitioner
    comes last. *)
Definition dispatch_global_batch_as_claimed (self : Input) (mesh : Mesh)
    (global_physical_batch : Batch) : M Event Batch :=
  constrained <- constrain_batch self mesh global_physical_batch ;;
  global_logical_batch <-
    (if has_input_dispatcher self then
       d <- lift (get_input_dispatcher self) ;;
       emit (EvPhysicalToLogical constrained) ;;
       ret (physical_to_logical_batch d constrained)
     else
       batch_axis_names <- lift (spec_getitem0 (_partition_spec self)) ;;
       emit (EvDispatchInputBatch constrained batch_axis_names) ;;
       ret (dispatch_input_batch constrained batch_axis_names)) ;;
  global_logical_batch <- constrain_batch self mesh global_logical_batch ;;
  apply_partitioner self mesh global_logical_batch.

(** What [batches] makes of one input batch under [cfg]. *)
Definition physical_of (cfg : Config) (input_batch : Batch) : Batch :=
  match cfg_input_dispatcher cfg with
  | Some dcfg =>
      logical_to_physical_batch
        (instantiate_dispatcher dcfg (partition_spec cfg))
        (as_numpy_array input_batch)
  | None => as_numpy_array input_batch
  end.

(** The [partition_spec] property of [Input]. *)
Definition Input_partition_spec (self : Input) : Result PartitionSpec :=
  if has_input_dispatcher self then
    match get_input_dispatcher self with
    | Ok d => Ok (dispatcher_partition_spec d)
    | Raise e => Raise e
    end
  else Ok input_partition_spec.

(** The calls to [with_sharding_constraint] recorded in a trace, in order,
    and the number of warnings logged. *)
Definition sharding_calls (evs : list Event) : list (Tensor * RuleSpec) :=
  flat_map (fun e =>
              match e with
              | EvShardingConstraint v spec => [(v, spec)]
              | _ => []
              end) evs.

Definition is_warning (e : Event) : bool :=
  match e with EvLogWarning _ _ _ _ _ => true | _ => false end.

Definition warnings (evs : list Event) : nat :=
  List.length (filter is_warning evs).

(** A leaf whose 0th dimension [parts] does not divide. *)
Definition nondivisible (parts : Z) (pv : string * Tensor) : bool :=
  match shape (snd pv) with
  | d :: _ => negb (d mod parts =? 0)
  | [] => false
  end.

(** The call [maybe_constrain] makes to [with_sharding_constraint] for a
    leaf matched by a rule that maps to [spec], if any. *)
Definition call_for (spec : option RuleSpec) (v : Tensor)
    : list (Tensor * RuleSpec) :=
  match spec with
  | Some s => if is_not_UNCONSTRAINED s then [(v, s)] else []
  | None => []
  end.

End Runtime.

End InputBase.

(** ** [axlearn/common/flash_attention/tpu_attention_benchmark.py] *)

Module Benchmark.

(** A subclass of [BaseKVCache], as a class object; [==] on classes is
    identity.  [OtherKVCache] stands for any class but the two the module
    imports, named by its qualified name. *)
Inductive KVCacheType : Type :=
| KVCache
| PagedKVCache
| OtherKVCache (qualname : string).

Definition is_KVCache (c : option KVCacheType) : bool :=
  match c with Some KVCache => true | _ => false end.

Definition is_PagedKVCache (c : option KVCacheType) : bool :=
  match c with Some PagedKVCache => true | _ => false end.

(** [kv_cache_type is None or kv_cache_type in (KVCache, PagedKVCache)] *)
Definition supported (c : option KVCacheType) : bool :=
  match c with
  | None => true
  | Some t => is_KVCache (Some t) || is_PagedKVCache (Some t)
  end.

Definition class_repr (c : option KVCacheType) : string :=
  match c with
  | None => "None"
  | Some KVCache => "<class 'axlearn.common.kv_cache.kv_cache.KVCache'>"
  | Some PagedKVCache =>
      "<class 'axlearn.common.kv_cache.paged_kv_cache.PagedKVCache'>"
  | Some (OtherKVCache n) => ("<class '" ++ n ++ "'>")%string
  end.

Record BenchConfig : Type := {
  cfg_num_heads : Z;
  cfg_per_head_dim : Z;
  cfg_num_kv_heads : option Z
}.

Definition _BENCHMARK_CONFIGS : list (string * BenchConfig) :=
  [ ("1.2b"%string, {| cfg_num_heads := 16; cfg_per_head_dim := 128; cfg_num_kv_heads := None |});
    ("12.6b"%string, {| cfg_num_heads := 40; cfg_per_head_dim := 128; cfg_num_kv_heads := None |});
    ("29.6b"%string, {| cfg_num_heads := 8; cfg_per_head_dim := 128; cfg_num_kv_heads := Some 1 |});
    ("65.2b"%string, {| cfg_num_heads := 72; cfg_per_head_dim := 128; cfg_num_kv_heads := None |});
    ("134b"%string, {| cfg_num_heads := 88; cfg_per_head_dim := 128; cfg_num_kv_heads := None |});
    ("261.7b"%string, {| cfg_num_heads := 110; cfg_per_head_dim := 128; cfg_num_kv_heads := None |}) ].

(** The keyword arguments of [_benchmark]. *)
Record BenchmarkArgs : Type := {
  batch_size : Z;
  seq_len : Z;
  block_size : Z;
  num_heads : Z;
  per_head_dim : Z;
  num_kv_heads : option Z;
  kv_cache_type : option KVCacheType;
  causal : bool;
  use_bias : bool;
  sliding_window_size : option Z;
  page_size : option Z
}.

(** [mask_fn]: [causal_mask] is the only mask the module passes. *)
Inductive MaskFn : Type := causal_mask.

(** The arguments of [generate_attention_data]; the paged variant takes
    [page_size] besides. *)
Record AttentionDataArgs : Type := {
  a_batch_size : Z;
  a_query_len : Z;
  a_kv_len : Z;
  a_num_heads : Z;
  a_per_head_dim : Z;
  a_num_kv_heads : Z;
  a_mask_fn : option MaskFn;
  a_sliding_window_sz : option Z;
  a_attention_bias_type : option string;
  a_query_offset : Z
}.

(** Truthiness of an optional int: [None] and [0] are falsy. *)
Definition truthy (x : option Z) : bool :=
  match x with
  | Some n => negb (n =? 0)
  | None => false
  end.

(** [num_kv_heads or num_heads] *)
Definition or_int (x : option Z) (y : Z) : Z :=
  match x with
  | Some n => if n =? 0 then y else n
  | None => y
  end.

(** Floats, arrays and the attention layers of axlearn and JAX that the
    module times; none of them is among the sources. *)
Class Numerics : Type := {
  float : Type;
  float_sub : float -> float -> float;
  (** [x / n] for an int [n] that is not zero *)
  float_div_int : float -> Z -> float;
  (** [n ** 0.5] *)
  pow_half : Z -> float;
  (** [f"{x:.4f}"] *)
  format_4f : float -> string;
  Array : Type;
  (** [q.shape[-1]] of a generated query *)
  last_dim : Array -> Z;
  Bias : Type;
  RefImpl : Type;
  FlashImpl : Type
}.

Section Bench.
Context {N : Numerics}.

(** [dict(query=q, key=k, value=v, bias=bias, page_tables=page_tables)] *)
Record InputBatch : Type := {
  query : Array;
  key : Array;
  value : Array;
  bias : Bias;
  page_tables : option Array
}.

(** The keyword arguments of [flash_attention_implementation("tpu", ...)]. *)
Record FlashArgs : Type := {
  f_query : Array;
  f_key : Array;
  f_value : Array;
  f_bias : Bias;
  f_softmax_scale : float;
  f_tpu_block_size : Z;
  f_kv_cache_type : option KVCacheType;
  f_page_tables : option Array
}.

(** The callables the module hands to [_time_call]: its four lambdas, and
    any other callable. *)
Inductive Callable : Type :=
| LambdaRefFwd (ref_mha_impl : RefImpl) (input_batch : InputBatch)
| LambdaFlashFwd (mha_impl : FlashImpl) (input_batch : InputBatch)
| LambdaRefBwd (ref_mha_impl : RefImpl) (q k v : Array) (b : Bias)
| LambdaFlashBwd (mha_impl : FlashImpl) (q k v : Array) (b : Bias)
| OtherCallable (name : string).

(** What [print] writes. *)
Inductive Line : Type :=
| LineBanner (name device_kind : string)
| LineFwd (ref_fwd_time flash_fwd_time : float)
| LineBwd (ref_bwd_time flash_bwd_time : float).

Definition newline : string := String (Ascii.ascii_of_nat 10) EmptyString.

Definition render (l : Line) : string :=
  match l with
  | LineBanner name device_kind =>
      ("Benchmarking attention representative of " ++ name
       ++ " model layer on " ++ device_kind ++ ".")%string
  | LineFwd r f =>
      ("ref_fwd:" ++ format_4f r ++ "s, flash_fwd:" ++ format_4f f ++ "s")%string
  | LineBwd r f =>
      ("ref_bwd:" ++ format_4f r ++ "s, flash_bwd:" ++ format_4f f ++ "s"
       ++ newline)%string
  end.

(** The calls the module makes, in the order it makes them. *)
Inductive Event : Type :=
| EvGenerateAttentionData (args : AttentionDataArgs)
| EvGeneratePagedAttentionData (args : AttentionDataArgs) (page_size : Z)
| EvReferenceMHA (softmax_scale : float) (tpu_block_size : Z)
| EvFlashAttentionImplementation (args : FlashArgs)
| EvCall (fn : Callable)
| EvBlockUntilReady (a : Array)
| EvPerfCounter
| EvPrint (line : Line).

(** What the calls return.  [perf_counter_value t] is the clock read after
    the calls of [t]. *)
Class World : Type := {
  generate_attention_data : AttentionDataArgs -> Array * Array * Array * Bias;
  generate_paged_attention_data :
    AttentionDataArgs -> Z -> Array * Array * Array * Array * Bias;
  reference_mha : float -> Z -> RefImpl;
  flash_attention_implementation : FlashArgs -> FlashImpl;
  call_result : Callable -> Array;
  perf_counter_value : list Event -> float;
  default_backend : string;
  device_kinds : list string
}.

Context {W : World}.

(** [fn()] *)
Definition call (fn : Callable) : M Event Array :=
  emit (EvCall fn) ;; ret (call_result fn).

(** [a.block_until_ready()] *)
Definition block_until_ready (a : Array) : M Event Array :=
  emit (EvBlockUntilReady a) ;; ret a.

(** [time.perf_counter()] *)
Definition perf_counter : M Event float :=
  fun t => (Ok (perf_counter_value t), t ++ [EvPerfCounter]).

(** [for _ in range(n): body] *)
Fixpoint for_range (n : nat) (body : M Event unit) : M Event unit :=
  match n with
  | O => ret tt
  | S n' => body ;; for_range n' body
  end.

(** [x / n] *)
Definition true_div (x : float) (n : Z) : Result float :=
  if n =? 0 then Raise ZeroDivisionError else Ok (float_div_int x n).

Definition default_num_iters : Z := 5.

(** [_time_call(fn, num_iters=num_iters)] *)
Definition _time_call (fn : Callable) (num_iters : Z) : M Event float :=
  a <- call fn ;;
  block_until_ready a ;;
  tic <- perf_counter ;;
  for_range (Z.to_nat num_iters)
    (a <- call fn ;; block_until_ready a ;; ret tt) ;;
  toc <- perf_counter ;;
  lift (true_div (float_sub toc tic) num_iters).

Definition not_supported_msg (c : option KVCacheType) : string :=
  ("This benchmark doesn't support kv_cache_type=" ++ class_repr c
   ++ " yet.")%string.

(** [causal_mask if causal and not sliding_window_size else None] *)
Definition mask_fn_of (a : BenchmarkArgs) : option MaskFn :=
  if causal a && negb (truthy (sliding_window_size a)) then Some causal_mask
  else None.

Definition data_args (a : BenchmarkArgs) (query_len query_offset : Z)
    : AttentionDataArgs :=
  {| a_batch_size := batch_size a;
     a_query_len := query_len;
     a_kv_len := seq_len a;
     a_num_heads := num_heads a;
     a_per_head_dim := per_head_dim a;
     a_num_kv_heads := or_int (num_kv_heads a) (num_heads a);
     a_mask_fn := mask_fn_of a;
     a_sliding_window_sz := sliding_window_size a;
     a_attention_bias_type := if use_bias a then Some "4d"%string else None;
     a_query_offset := query_offset |}.

(** The first [if]/[else] of [_benchmark]: the generated
    [(q, k, v, page_tables, bias)]. *)
Definition generate (a : BenchmarkArgs)
    : M Event (Array * Array * Array * option Array * Bias) :=
  if is_PagedKVCache (kv_cache_type a) then
    match page_size a with
    | None => raise (AssertionError "")
    | Some ps =>
        let args := data_args a 1 (seq_len a - 1) in
        emit (EvGeneratePagedAttentionData args ps) ;;
        let '(q, k, v, pt, b) := generate_paged_attention_data args ps in
        ret (q, k, v, Some pt, b)
    end
  else
    let is_decoding := is_KVCache (kv_cache_type a) in
    let args :=
      data_args a (if is_decoding then 1 else seq_len a)
        (if is_decoding then seq_len a - 1 else 0) in
    emit (EvGenerateAttentionData args) ;;
    let '(q, k, v, b) := generate_attention_data args in
    ret (q, k, v, None, b).

(** [_benchmark], called with the keyword arguments [a]. *)
Definition _benchmark (a : BenchmarkArgs) : M Event unit :=
  (if negb (supported (kv_cache_type a)) then
     raise (NotImplementedError (not_supported_msg (kv_cache_type a)))
   else ret tt) ;;
  data <- generate a ;;
  let '(q, k, v, pt, b) := data in
  let softmax_scale := pow_half (last_dim q) in
  emit (EvReferenceMHA softmax_scale (block_size a)) ;;
  let ref_mha_impl := reference_mha softmax_scale (block_size a) in
  let fargs :=
    {| f_query := q; f_key := k; f_value := v; f_bias := b;
       f_softmax_scale := softmax_scale;
       f_tpu_block_size := block_size a;
       f_kv_cache_type := kv_cache_type a;
       f_page_tables := pt |} in
  emit (EvFlashAttentionImplementation fargs) ;;
  let mha_impl := flash_attention_implementation fargs in
  let input_batch :=
    {| query := q; key := k; value := v; bias := b; page_tables := pt |} in
  ref_fwd_time <- _time_call (LambdaRefFwd ref_mha_impl input_batch)
                    default_num_iters ;;
  flash_fwd_time <- _time_call (LambdaFlashFwd mha_impl input_batch)
                      default_num_iters ;;
  emit (EvPrint (LineFwd ref_fwd_time flash_fwd_time)) ;;
  match kv_cache_type a with
  | None =>
      ref_bwd_time <- _time_call (LambdaRefBwd ref_mha_impl q k v b)
                        default_num_iters ;;
      flash_bwd_time <- _time_call (LambdaFlashBwd mha_impl q k v b)
                          default_num_iters ;;
      emit (EvPrint (LineBwd ref_bwd_time flash_bwd_time))
  | Some _ => ret tt
  end.

(** The arguments the script passes for one entry of
    [_BENCHMARK_CONFIGS]; what it leaves out takes the default of
    [_benchmark]. *)
Definition main_args (cfg : BenchConfig) : BenchmarkArgs :=
  {| batch_size := 2;
     seq_len := 1024 * 8;
     block_size := 4 * 128;
     num_heads := cfg_num_heads cfg;
     per_head_dim := cfg_per_head_dim cfg;
     num_kv_heads := cfg_num_kv_heads cfg;
     kv_cache_type := Some KVCache;
     causal := true;
     use_bias := false;
     sliding_window_size := Some 4096;
     page_size := None |}.

(** The loop of the script over a list of configurations. *)
Fixpoint main_loop (device_kind : string) (configs : list (string * BenchConfig))
    : M Event unit :=
  match configs with
  | [] => ret tt
  | (name, cfg) :: rest =>
      emit (EvPrint (LineBanner name device_kind)) ;;
      _benchmark (main_args cfg) ;;
      main_loop device_kind rest
  end.

(** [jax.devices()[0].device_kind] *)
Definition first_device_kind : Result string :=
  match device_kinds with
  | d :: _ => Ok d
  | [] => Raise IndexError
  end.

(** The body of [if __name__ == "__main__":]. *)
Definition main : M Event unit :=
  py_assert (String.eqb default_backend "tpu")
    "Benchmarking requires a TPU backend." ;;
  device_kind <- lift first_device_kind ;;
  main_loop device_kind _BENCHMARK_CONFIGS.

(** The calls of one [_time_call(fn, num_iters=n)]. *)
Definition one_call (fn : Callable) : list Event :=
  [EvCall fn; EvBlockUntilReady (call_result fn)].

Definition time_call_events (fn : Callable) (n : Z) : list Event :=
  one_call fn ++ [EvPerfCounter]
  ++ List.concat (repeat (one_call fn) (Z.to_nat n)) ++ [EvPerfCounter].

(** The clock read before and after the timed calls of
    [_time_call(fn, num_iters=n)] started at trace [t], and the time
    between the two. *)
Definition tic_at (fn : Callable) (t : list Event) : float :=
  perf_counter_value (t ++ one_call fn).

Definition toc_at (fn : Callable) (n : Z) (t : list Event) : float :=
  perf_counter_value
    (t ++ one_call fn ++ [EvPerfCounter]
       ++ List.concat (repeat (one_call fn) (Z.to_nat n))).

Definition elapsed (fn : Callable) (n : Z) (t : list Event) : float :=
  float_sub (toc_at fn n t) (tic_at fn t).

(** What [_time_call(fn)] measures with the default [num_iters]. *)
Definition measured (fn : Callable) (t : list Event) : float :=
  float_div_int (elapsed fn default_num_iters t) default_num_iters.

(** The layers and lambdas [_benchmark] builds from the generated data. *)
Definition softmax_scale_of (q : Array) : float := pow_half (last_dim q).

Definition flash_args_of (a : BenchmarkArgs) (q k v : Array)
    (pt : option Array) (b : Bias) : FlashArgs :=
  {| f_query := q; f_key := k; f_value := v; f_bias := b;
     f_softmax_scale := softmax_scale_of q;
     f_tpu_block_size := block_size a;
     f_kv_cache_type := kv_cache_type a;
     f_page_tables := pt |}.

Definition ref_impl_of (a : BenchmarkArgs) (q : Array) : RefImpl :=
  reference_mha (softmax_scale_of q) (block_size a).

Definition flash_impl_of (a : BenchmarkArgs) (q k v : Array)
    (pt : option Array) (b : Bias) : FlashImpl :=
  flash_attention_implementation (flash_args_of a q k v pt b).

Definition ref_fwd_of (a : BenchmarkArgs) (q k v : Array)
    (pt : option Array) (b : Bias) : Callable :=
  LambdaRefFwd (ref_impl_of a q)
    {| query := q; key := k; value := v; bias := b; page_tables := pt |}.

Definition flash_fwd_of (a : BenchmarkArgs) (q k v : Array)
    (pt : option Array) (b : Bias) : Callable :=
  LambdaFlashFwd (flash_impl_of a q k v pt b)
    {| query := q; key := k; value := v; bias := b; page_tables := pt |}.

Definition ref_bwd_of (a : BenchmarkArgs) (q k v : Array) (b : Bias)
    : Callable :=
  LambdaRefBwd (ref_impl_of a q) q k v b.

Definition flash_bwd_of (a : BenchmarkArgs) (q k v : Array)
    (pt : option Array) (b : Bias) : Callable :=
  LambdaFlashBwd (flash_impl_of a q k v pt b) q k v b.

Definition setup_events (a : BenchmarkArgs) (q k v : Array)
    (pt : option Array) (b : Bias) : list Event :=
  [EvReferenceMHA (softmax_scale_of q) (block_size a);
   EvFlashAttentionImplementation (flash_args_of a q k v pt b)].

(** Two callables timed one after the other from trace [t], and the line
    that reports the two times. *)
Definition timed_pair (f1 f2 : Callable) (line : float -> float -> Line)
    (t : list Event) : list Event :=
  time_call_events f1 default_num_iters
  ++ time_call_events f2 default_num_iters
  ++ [EvPrint (line (measured f1 t)
                 (measured f2 (t ++ time_call_events f1 default_num_iters)))].

(** The number of times a trace invokes a callable. *)
Definition is_call (e : Event) : bool :=
  match e with EvCall _ => true | _ => false end.

Definition invocations (evs : list Event) : nat :=
  List.length (filter is_call evs).

(** Backward-pass timing and reporting. *)
Definition is_bwd (e : Event) : bool :=
  match e with
  | EvCall (LambdaRefBwd _ _ _ _ _) => true
  | EvCall (LambdaFlashBwd _ _ _ _ _) => true
  | EvPrint (LineBwd _ _) => true
  | _ => false
  end.

Definition is_fwd_line (e : Event) : bool :=
  match e with EvPrint (LineFwd _ _) => true | _ => false end.

(** A trace without backward-pass timing or reporting, and the number of
    forward lines a trace prints. *)
Definition no_bwd (evs : list Event) : bool :=
  forallb (fun e => negb (is_bwd e)) evs.

Definition fwd_lines (evs : list Event) : nat :=
  List.length (filter is_fwd_line evs).

Definition is_generate (e : Event) : bool :=
  match e with
  | EvGenerateAttentionData _ => true
  | EvGeneratePagedAttentionData _ _ => true
  | _ => false
  end.

(** [a] with another [kv_cache_type], and with another [page_size]. *)
Definition with_kv_cache_type (a : BenchmarkArgs) (c : option KVCacheType)
    : BenchmarkArgs :=
  {| batch_size := batch_size a; seq_len := seq_len a;
     block_size := block_size a; num_heads := num_heads a;
     per_head_dim := per_head_dim a; num_kv_heads := num_kv_heads a;
     kv_cache_type := c; causal := causal a; use_bias := use_bias a;
     sliding_window_size := sliding_window_size a;
     page_size := page_size a |}.

Definition with_page_size (a : BenchmarkArgs) (ps : option Z)
    : BenchmarkArgs :=
  {| batch_size := batch_size a; seq_len := seq_len a;
     block_size := block_size a; num_heads := num_heads a;
     per_head_dim := per_head_dim a; num_kv_heads := num_kv_heads a;
     kv_cache_type := kv_cache_type a; causal := causal a;
     use_bias := use_bias a;
     sliding_window_size := sliding_window_size a;
     page_size := ps |}.

(** The number of clock readings and of data generations in a trace, and
    the names of the configurations it announces. *)
Definition is_perf_counter (e : Event) : bool :=
  match e with EvPerfCounter => true | _ => false end.

Definition clock_reads (evs : list Event) : nat :=
  List.length (filter is_perf_counter evs).

Definition generations (evs : list Event) : nat :=
  List.length (filter is_generate evs).

Definition banners (evs : list Event) : list string :=
  flat_map (fun e =>
              match e with
              | EvPrint (LineBanner name _) => [name]
              | _ => []
              end) evs.

(** The events that tell what a trace benchmarked: the banner of a
    configuration, a generation of data, and each call of a timed
    callable. *)
Definition is_milestone (e : Event) : bool :=
  match e with
  | EvPrint (LineBanner _ _) => true
  | EvGenerateAttentionData _ => true
  | EvGeneratePagedAttentionData _ _ => true
  | EvCall _ => true
  | _ => false
  end.

Definition milestones (evs : list Event) : list Event :=
  filter is_milestone evs.

(** The data the script asks for, for one entry of [_BENCHMARK_CONFIGS]:
    decoding over 8192 keys for a batch of 2, with the heads of the entry,
    no mask function (a sliding window of 4096 is set) and no bias. *)
Definition script_data_args (cfg : BenchConfig) : AttentionDataArgs :=
  {| a_batch_size := 2;
     a_query_len := 1;
     a_kv_len := 8192;
     a_num_heads := cfg_num_heads cfg;
     a_per_head_dim := cfg_per_head_dim cfg;
     a_num_kv_heads :=
       match cfg_num_kv_heads cfg with
       | Some n => if n =? 0 then cfg_num_heads cfg else n
       | None => cfg_num_heads cfg
       end;
     a_mask_fn := None;
     a_sliding_window_sz := Some 4096;
     a_attention_bias_type := None;
     a_query_offset := 8191 |}.

(** One entry of [_BENCHMARK_CONFIGS] benchmarked: data of its shape is
    generated, then the reference forward pass and the flash forward pass,
    both built with block size 512 and run on that data, are called six
    times each. *)
Definition benchmark_milestones (cfg : BenchConfig) : list Event :=
  let '(q, k, v, b) := generate_attention_data (script_data_args cfg) in
  let scale := pow_half (last_dim q) in
  let input_batch :=
    {| query := q; key := k; value := v; bias := b; page_tables := None |} in
  [EvGenerateAttentionData (script_data_args cfg)]
  ++ repeat (EvCall (LambdaRefFwd (reference_mha scale 512) input_batch)) 6
  ++ repeat
       (EvCall
          (LambdaFlashFwd
             (flash_attention_implementation
                {| f_query := q; f_key := k; f_value := v; f_bias := b;
                   f_softmax_scale := scale;
                   f_tpu_block_size := 512;
                   f_kv_cache_type := Some KVCache;
                   f_page_tables := None |})
             input_batch)) 6.

(** The same, announced first. *)
Definition config_milestones (device_kind : string)
    (nc : string * BenchConfig) : list Event :=
  EvPrint (LineBanner (fst nc) device_kind) :: benchmark_milestones (snd nc).

End Bench.

End Benchmark.

(** ** Concrete runtimes, for the examples *)

Module Examples.
Import InputBase.

(** An array that records the constraints put on it. *)
Record HostArray : Type := {
  dims : list Z;
  constraints : list RuleSpec
}.

Definition recording_jax : JaxRuntime :=
  {| Tensor := HostArray;
     shape := dims;
     with_sharding_constraint := fun v s =>
       {| dims := dims v; constraints := constraints v ++ [s] |} |}.

(** A small regex engine, enough for the examples: the pattern [.*]
    matches every path, any other pattern is read as a literal. *)
Definition literal_re : ReEngine :=
  {| Pattern := string;
     Pattern_eq_dec := string_dec;
     re_compile := fun s => Some s;
     re_fullmatch := fun p s => String.eqb p ".*" || String.eqb p s |}.

(** A pattern of [literal_re], and a [compiled] dict over such patterns. *)
Definition lit (s : string) : Pattern (ReEngine := literal_re) := s.

Definition compiled_of (l : list (option string * option Z * RuleSpec))
    : list (CKey (R := literal_re) * RuleSpec) := l.

Definition identity_dispatcher : BaseInputDispatcher (J := recording_jax) :=
  {| logical_to_physical_batch := fun b => b;
     physical_to_logical_batch := fun b => b;
     dispatcher_partition_spec := [EAxis "data"] |}.

(** A dispatch that keeps the first two examples of every leaf. *)
Definition first_two (v : Tensor (JaxRuntime := recording_jax))
    : Tensor (JaxRuntime := recording_jax) :=
  {| dims := match dims v with _ :: rest => 2 :: rest | [] => [] end;
     constraints := constraints v |}.

Definition dispatch_first_two (b : Nested HostArray) (_ : SpecEntry)
    : Nested HostArray :=
  tree_mapi (fun _ v => first_two v) "" b.

Definition toy_utils : AxlearnUtils (J := recording_jax) :=
  @Build_AxlearnUtils recording_jax
    (fun b => b) dispatch_first_two [EAxes ["data"%string]]
    unit (fun _ _ => identity_dispatcher).

(** [dispatch_input_batch] after [axlearn.common.utils], on recorded
    arrays.  Every leaf is constrained by
    [PartitionSpec(batch_axis_names)]; then a dict that holds a dispatch
    tensor of shape [(p, l)] under [PHYSICAL_TO_LOGICAL_DISPATCH_KEY] loses
    that entry and has every other leaf contracted with it
    ([einsum("p...,pl->l...")]: [l] rows for the [p] it had), and any other
    dict is traversed. *)
Definition PHYSICAL_TO_LOGICAL_DISPATCH_KEY : string :=
  "__physical_to_logical_batch_dispatch".

Definition einsum_dispatch (dispatch x : HostArray) : HostArray :=
  {| dims := match dims x, dims dispatch with
             | _ :: rest, [_; l] => l :: rest
             | d, _ => d
             end;
     constraints := [] |}.

Fixpoint dispatch_entry (items : list (string * Nested HostArray))
    : option HostArray :=
  match items with
  | [] => None
  | (k, c) :: rest =>
      if String.eqb k PHYSICAL_TO_LOGICAL_DISPATCH_KEY then
        match c with Leaf d => Some d | Dict _ => None end
      else dispatch_entry rest
  end.

Definition without_dispatch_entry (items : list (string * Nested HostArray))
    : list (string * Nested HostArray) :=
  filter (fun kc => negb (String.eqb (fst kc) PHYSICAL_TO_LOGICAL_DISPATCH_KEY))
    items.

Fixpoint traverse_and_dispatch (data : Nested HostArray) : Nested HostArray :=
  match data with
  | Leaf v => Leaf v
  | Dict items =>
      match dispatch_entry items with
      | Some dispatch =>
          tree_mapi (fun _ x => einsum_dispatch dispatch x) ""
            (Dict (without_dispatch_entry items))
      | None =>
          Dict (map (fun kc => (fst kc, traverse_and_dispatch (snd kc))) items)
      end
  end.

Definition dispatch_by_key (b : Nested HostArray) (batch_axis_names : SpecEntry)
    : Nested HostArray :=
  traverse_and_dispatch
    (tree_mapi
       (fun _ x =>
          with_sharding_constraint (JaxRuntime := recording_jax) x
            (RSpec [batch_axis_names])) "" b).

Definition keyed_utils : AxlearnUtils (J := recording_jax) :=
  @Build_AxlearnUtils recording_jax
    (fun b => b) dispatch_by_key [EAxes ["data"%string]]
    unit (fun _ _ => identity_dispatcher).

Definition mesh2 : Mesh :=
  {| empty := false; size := 2; mesh_shape := [("data"%string, 2)] |}.

Definition mesh1 : Mesh :=
  {| empty := false; size := 1; mesh_shape := [("data"%string, 1)] |}.

Definition vec (n : Z) : Tensor (JaxRuntime := recording_jax) :=
  {| dims := [n]; constraints := [] |}.

Definition data_spec : PartitionSpec := [EAxis "data"].

(** [Input] configurations with and without a dispatcher. *)
Definition cfg_plain : Config (J := recording_jax) (R := literal_re) (U := toy_utils) :=
  {| partition_spec := Some data_spec;
     cfg_input_dispatcher := None;
     cfg_input_partitioner := None |}.

Definition cfg_dispatching : Config (J := recording_jax) (R := literal_re) (U := toy_utils) :=
  {| partition_spec := Some data_spec;
     cfg_input_dispatcher := Some (tt : @DispatcherConfig recording_jax toy_utils);
     cfg_input_partitioner := None |}.

(** An [Input] without a dispatcher over [dispatch_by_key], and a physical
    batch of three rows that carries a dispatch tensor to two logical
    rows. *)
Definition cfg_keyed : Config (J := recording_jax) (R := literal_re) (U := keyed_utils) :=
  {| partition_spec := Some data_spec;
     cfg_input_dispatcher := None;
     cfg_input_partitioner := None |}.

Definition keyed_batch : Nested HostArray :=
  Dict [("x"%string, Leaf (vec 3));
        (PHYSICAL_TO_LOGICAL_DISPATCH_KEY,
         Leaf {| dims := [3; 2]; constraints := [] |})].

(** A benchmark world that counts time in ticks, one per call made. *)
Definition tick_numerics : Benchmark.Numerics :=
  {| Benchmark.float := Z;
     Benchmark.float_sub := Z.sub;
     Benchmark.float_div_int := Z.div;
     Benchmark.pow_half := Z.sqrt;
     Benchmark.format_4f := fun _ => "0.0000"%string;
     Benchmark.Array := list Z;
     Benchmark.last_dim := fun a => List.last a 0;
     Benchmark.Bias := unit;
     Benchmark.RefImpl := unit;
     Benchmark.FlashImpl := unit |}.

Definition tick_generate (a : Benchmark.AttentionDataArgs)
    : list Z * list Z * list Z * unit :=
  ([Benchmark.a_batch_size a; Benchmark.a_query_len a;
    Benchmark.a_num_heads a; Benchmark.a_per_head_dim a],
   [Benchmark.a_batch_size a; Benchmark.a_kv_len a;
    Benchmark.a_num_kv_heads a; Benchmark.a_per_head_dim a],
   [Benchmark.a_batch_size a; Benchmark.a_kv_len a;
    Benchmark.a_num_kv_heads a; Benchmark.a_per_head_dim a], tt).

Definition tick_generate_paged (a : Benchmark.AttentionDataArgs) (ps : Z)
    : list Z * list Z * list Z * list Z * unit :=
  ([Benchmark.a_batch_size a; Benchmark.a_query_len a;
    Benchmark.a_num_heads a; Benchmark.a_per_head_dim a],
   [Benchmark.a_num_kv_heads a; ps; Benchmark.a_per_head_dim a],
   [Benchmark.a_num_kv_heads a; ps; Benchmark.a_per_head_dim a],
   [Benchmark.a_batch_size a; Benchmark.a_kv_len a / ps], tt).

Definition tick_world (backend : string) : Benchmark.World (N := tick_numerics) :=
  @Benchmark.Build_World tick_numerics
    tick_generate tick_generate_paged
    (fun _ _ => tt) (fun _ => tt) (fun _ => [])
    (fun t => Z.of_nat (List.length t))
    backend ["TPU v5"%string].

Definition sample_args (c : option Benchmark.KVCacheType)
    : Benchmark.BenchmarkArgs :=
  {| Benchmark.batch_size := 2;
     Benchmark.seq_len := 8192;
     Benchmark.block_size := 512;
     Benchmark.num_heads := 16;
     Benchmark.per_head_dim := 128;
     Benchmark.num_kv_heads := None;
     Benchmark.kv_cache_type := c;
     Benchmark.causal := true;
     Benchmark.use_bias := false;
     Benchmark.sliding_window_size := Some 4096;
     Benchmark.page_size := None |}.

End Examples.

(** ** The trace monad *)

Module PyFacts.

Lemma uniform_ret {E A} (a : A) : uniform (ret (E := E) a).
Proof. intros t. cbn. now rewrite app_nil_r. Qed.

Lemma uniform_raise {E A} (e : Exn) : uniform (raise (E := E) (A := A) e).
Proof. intros t. cbn. now rewrite app_nil_r. Qed.

Lemma uniform_lift {E A} (r : Result A) : uniform (lift (E := E) r).
Proof. intros t. cbn. now rewrite app_nil_r. Qed.

Lemma uniform_emit {E} (e : E) : uniform (emit e).
Proof. intros t. reflexivity. Qed.

Lemma uniform_bind {E A B} (m : M E A) (k : A -> M E B) :
  uniform m -> (forall a, uniform (k a)) -> uniform (bind m k).
Proof.
  intros Hm Hk t. unfold bind.
  rewrite (Hm t). destruct (m []) as [[a | e] evs]; cbn.
  - rewrite (Hk a (t ++ evs)), (Hk a evs). cbn.
    now rewrite app_assoc.
  - reflexivity.
Qed.

Lemma bind_lift_ok {E A B} (a : A) (k : A -> M E B) (t : list E) :
  bind (lift (Ok a)) k t = k a t.
Proof. reflexivity. Qed.

Lemma bind_lift_raise {E A B} (e : Exn) (k : A -> M E B) (t : list E) :
  bind (lift (Raise e)) k t = (Raise e, t).
Proof. reflexivity. Qed.

Lemma bind_ret {E A B} (a : A) (k : A -> M E B) (t : list E) :
  bind (ret a) k t = k a t.
Proof. reflexivity. Qed.

Lemma bind_emit {E B} (e : E) (k : unit -> M E B) (t : list E) :
  bind (emit e) k t = k tt (t ++ [e]).
Proof. reflexivity. Qed.

Lemma bind_run {E A B} (m : M E A) (k : A -> M E B) (t t' : list E) (a : A) :
  m t = (Ok a, t') -> bind m k t = k a t'.
Proof. unfold bind. now intros ->. Qed.

Lemma uniform_if {E A} (c : bool) (m1 m2 : M E A) :
  uniform m1 -> uniform m2 -> uniform (if c then m1 else m2).
Proof. now destruct c. Qed.

End PyFacts.

(** ** [input_base.py]: trees and [jax.tree.map] *)

Module TreeFacts.
Import InputBase PyFacts.

Section Scan.
Context {E A : Type} (f : string -> A -> M E A).

Lemma scan_app (l1 l2 : list (string * A)) :
  scan f (l1 ++ l2) =
  match fst (scan f l1) with
  | None => (fst (scan f l2), snd (scan f l1) ++ snd (scan f l2))
  | Some e => (Some e, snd (scan f l1))
  end.
Proof.
  induction l1 as [| [p v] l1 IH]; cbn [scan app].
  - now destruct (scan f l2).
  - destruct (f p v []) as [[b | e] evs]; cbn [fst snd]; [| reflexivity].
    rewrite IH. destruct (fst (scan f l1)); cbn [fst snd];
      now rewrite ?app_assoc.
Qed.

(** Over the leaves of a tree, [jax.tree.map] raises the first exception a
    leaf raises, and otherwise returns the tree of the leaves returned. *)
Lemma tree_map2_scan (Hf : forall p v, uniform (f p v)) (b : Nested A) :
  forall pre t,
    tree_map2 f (tree_paths_from pre b) b t =
    (match fst (scan f (leaves_from pre b)) with
     | None => Ok (tree_mapi (leaf_value f) pre b)
     | Some e => Raise e
     end,
     t ++ snd (scan f (leaves_from pre b))).
Proof.
  induction b as [a | items IH] using Nested_ind; intros pre t.
  - cbn. unfold bind, leaf_value. rewrite (Hf pre a t).
    destruct (f pre a []) as [[b | e] evs]; cbn; now rewrite ?app_nil_r.
  - cbn [tree_map2 tree_paths_from leaves_from tree_mapi].
    unfold bind at 1.
    assert (Hitems : forall t,
      map2M (fun pc c => tree_map2 f pc c)
        (map (fun kc => (fst kc, tree_paths_from (join_path pre (fst kc)) (snd kc)))
           items) items t =
      (match fst (scan f (flat_map
                (fun kc => leaves_from (join_path pre (fst kc)) (snd kc)) items)) with
       | None => Ok (map (fun kc =>
                   (fst kc, tree_mapi (leaf_value f) (join_path pre (fst kc)) (snd kc)))
                 items)
       | Some e => Raise e
       end,
       t ++ snd (scan f (flat_map
                (fun kc => leaves_from (join_path pre (fst kc)) (snd kc)) items)))).
    { induction IH as [| [k c] rest Hc _ IHrest]; intros t0.
      - cbn. now rewrite app_nil_r.
      - cbn [map flat_map map2M fst snd]. rewrite String.eqb_refl.
        cbn [snd] in Hc.
        unfold bind at 1. rewrite (Hc (join_path pre k) t0).
        rewrite scan_app.
        destruct (fst (scan f (leaves_from (join_path pre k) c))) as [e |];
          cbn [fst snd]; [reflexivity |].
        unfold bind at 1. rewrite IHrest.
        destruct (fst (scan f (flat_map _ rest))); cbn;
          now rewrite app_assoc. }
    rewrite Hitems.
    destruct (fst (scan f (flat_map _ items))); reflexivity.
Qed.

Lemma tree_map2_uniform (Hf : forall p v, uniform (f p v)) (b : Nested A)
    (pre : string) :
  uniform (tree_map2 f (tree_paths_from pre b) b).
Proof.
  intros t. rewrite (tree_map2_scan Hf b pre t), (tree_map2_scan Hf b pre []).
  reflexivity.
Qed.

(** When no leaf raises, the scan reports no exception and the calls of
    all leaves. *)
Lemma scan_all_ok (g : string -> A -> A) (ev : string -> A -> list E)
    (l : list (string * A)) :
  (forall p v, In (p, v) l -> f p v [] = (Ok (g p v), ev p v)) ->
  scan f l = (None, flat_map (fun pv => ev (fst pv) (snd pv)) l).
Proof.
  induction l as [| [p v] l IH]; intros H; cbn [scan flat_map fst snd].
  - reflexivity.
  - rewrite (H p v (or_introl eq_refl)), IH; [reflexivity |].
    intros p' v' Hin. apply H. now right.
Qed.

(** When every leaf either returns or raises an exception of a kind
    [bad], and some leaf raises, the scan reports the exception of a leaf
    that raises. *)
Lemma scan_some_bad (err : string -> A -> Exn) (l : list (string * A)) :
  (forall p v, In (p, v) l ->
     (exists b, fst (f p v []) = Ok b) \/ fst (f p v []) = Raise (err p v)) ->
  (exists p v, In (p, v) l /\ fst (f p v []) = Raise (err p v)) ->
  exists p v, In (p, v) l /\ fst (f p v []) = Raise (err p v)
              /\ fst (scan f l) = Some (err p v).
Proof.
  induction l as [| [p v] l IH]; intros Hall (p0 & v0 & Hin & Hbad).
  - destruct Hin.
  - cbn [scan].
    destruct (Hall p v (or_introl eq_refl)) as [[b Hb] | Hr].
    + destruct (f p v []) as [[b' | e] evs] eqn:Hf; cbn in Hb; [| discriminate].
      destruct Hin as [Heq | Hin].
      { injection Heq as Hp Hv. subst p0 v0. rewrite Hf in Hbad.
        discriminate. }
      destruct IH as (p1 & v1 & Hin1 & Hbad1 & Hscan).
      { intros p' v' H'. apply Hall. now right. }
      { now exists p0, v0. }
      exists p1, v1. cbn [fst]. auto using in_cons.
    + exists p, v. destruct (f p v []) as [[b' | e] evs] eqn:Hf; cbn in Hr;
        [discriminate |].
      injection Hr as ->. cbn. auto using in_eq.
Qed.

Lemma scan_fst_ok (l : list (string * A)) :
  (forall p v, In (p, v) l -> exists b, fst (f p v []) = Ok b) ->
  fst (scan f l) = None.
Proof.
  induction l as [| [p v] l IH]; intros H; cbn [scan]; [reflexivity |].
  destruct (H p v (or_introl eq_refl)) as [b Hb].
  destruct (f p v []) as [[b' | e] evs]; cbn in Hb; [| discriminate].
  cbn [fst]. apply IH. intros p' v' Hin. apply H. now right.
Qed.

End Scan.

(** Two maps that agree on the leaves of a tree agree on the tree. *)
Lemma tree_mapi_ext {A B : Type} (g g' : string -> A -> B) (b : Nested A) :
  forall pre,
    (forall p v, In (p, v) (leaves_from pre b) -> g p v = g' p v) ->
    tree_mapi g pre b = tree_mapi g' pre b.
Proof.
  induction b as [a | items IH] using Nested_ind; intros pre H.
  - cbn. f_equal. apply H. now left.
  - cbn [tree_mapi]. f_equal. cbn [leaves_from] in H.
    induction IH as [| [k c] rest Hc _ IHrest]; [reflexivity |].
    cbn [map fst snd]. f_equal.
    + f_equal. apply Hc. intros p v Hin. apply H. cbn [flat_map fst snd].
      apply in_or_app. now left.
    + apply IHrest. intros p v Hin. apply H. cbn [flat_map].
      apply in_or_app. now right.
Qed.

(** A leaf of the mapped tree is the image of a leaf of the tree. *)
Lemma leaves_from_tree_mapi {A B : Type} (g : string -> A -> B) (b : Nested A) :
  forall pre,
    leaves_from pre (tree_mapi g pre b) =
    map (fun pv => (fst pv, g (fst pv) (snd pv))) (leaves_from pre b).
Proof.
  induction b as [a | items IH] using Nested_ind; intros pre.
  - reflexivity.
  - cbn [tree_mapi leaves_from].
    induction IH as [| [k c] rest Hc _ IHrest]; [reflexivity |].
    cbn [map flat_map fst snd]. rewrite map_app, Hc. f_equal. apply IHrest.
Qed.

End TreeFacts.

(** ** [input_base.py]: [partition_by_path_rank] *)

Module PartitionFacts.
Import InputBase PyFacts TreeFacts.

Section Rules.
Context {J : JaxRuntime} {R : ReEngine}.

Lemma CKey_eqb_eq (a b : CKey) : CKey_eqb a b = true <-> a = b.
Proof.
  destruct a as [[p |] [m |]], b as [[q |] [n |]]; unfold CKey_eqb; cbn;
    try destruct (Pattern_eq_dec p q); cbn;
    rewrite ?Z.eqb_eq; split; intros H; try discriminate; try congruence;
    try (injection H; intros; subst; congruence).
Qed.

Lemma in_keys_dict_set (k k' : CKey) (s : RuleSpec) (d : list (CKey * RuleSpec)) :
  In k' (map fst (dict_set CKey_eqb k s d)) <-> In k' (map fst d) \/ k' = k.
Proof.
  induction d as [| [k0 s0] d IH]; cbn [dict_set map fst In].
  - intuition.
  - destruct (CKey_eqb k0 k) eqn:Hk; cbn [map fst In].
    + apply CKey_eqb_eq in Hk. subst k0. intuition.
    + rewrite IH. intuition.
Qed.

(** A key that is new to the dict goes to its end. *)
Lemma dict_set_fresh (k : CKey) (s : RuleSpec) (d : list (CKey * RuleSpec)) :
  ~ In k (map fst d) -> dict_set CKey_eqb k s d = d ++ [(k, s)].
Proof.
  induction d as [| [k0 s0] d IH]; cbn [dict_set map fst In app]; intros H.
  - reflexivity.
  - destruct (CKey_eqb k0 k) eqn:Hk.
    + apply CKey_eqb_eq in Hk. tauto.
    + rewrite IH; tauto.
Qed.

(** The keys of [compiled] are the keys it started with and the compiled
    keys of the rules, no more and no fewer. *)
Lemma compile_rules_keys (rules : list (PathAndRank * RuleSpec)) :
  forall acc c,
    compile_rules rules acc = Ok c ->
    forall k, In k (map fst c) <->
      In k (map fst acc)
      \/ exists r s, In (r, s) rules
                     /\ compile_path (path r) = Ok (fst k) /\ rank r = snd k.
Proof.
  induction rules as [| [r s] rules IH]; cbn [compile_rules]; intros acc c Hc k.
  - injection Hc as <-. split; [tauto |].
    intros [H | (r & s & [] & _)]. exact H.
  - destruct (compile_path (path r)) as [regex | e] eqn:Hr; [| discriminate].
    rewrite (IH _ _ Hc k), in_keys_dict_set. split.
    + intros [[H | ->] | (r' & s' & Hin & H1 & H2)].
      * now left.
      * right. exists r, s. cbn. auto.
      * right. exists r', s'. cbn. auto.
    + intros [H | (r' & s' & [Heq | Hin] & H1 & H2)].
      * auto.
      * injection Heq as <- <-. left. right.
        destruct k as [k1 k2]. cbn in *. congruence.
      * right. exists r', s'. auto.
Qed.

Lemma rule_matches_ckey (r : PathAndRank) (k : CKey) (p : string) (v : Tensor) :
  compile_path (path r) = Ok (fst k) -> rank r = snd k ->
  rule_matches r p v = ckey_matches k p v.
Proof.
  intros H1 H2. unfold rule_matches, ckey_matches. now rewrite H1, H2.
Qed.

Lemma first_ckey_match_None (compiled : list (CKey * RuleSpec)) (p : string)
    (v : Tensor) :
  first_ckey_match compiled p v = None <->
  forall k, In k (map fst compiled) -> ckey_matches k p v = false.
Proof.
  induction compiled as [| [k s] c IH]; cbn [first_ckey_match map fst In].
  - intuition.
  - destruct (ckey_matches k p v) eqn:Hk.
    + split; [discriminate |]. intros H. rewrite (H k) in Hk; auto.
      discriminate.
    + rewrite IH. split; intros H; [| now auto].
      intros k' [<- | Hin]; auto.
Qed.

(** No key of [compiled] matches a leaf exactly when no rule of the given
    mapping does. *)
Lemma no_ckey_iff_no_rule (rules : list (PathAndRank * RuleSpec))
    (c : list (CKey * RuleSpec)) (p : string) (v : Tensor) :
  compile_rules rules [] = Ok c ->
  first_ckey_match c p v = None <->
  forall r s, In (r, s) rules -> rule_matches r p v = false.
Proof.
  intros Hc. rewrite first_ckey_match_None. split; intros H.
  - intros r s Hin.
    assert (Hr : exists regex, compile_path (path r) = Ok regex).
    { clear H. revert Hc. generalize (@nil (CKey * RuleSpec)).
      induction rules as [| [r' s'] rules IH]; [destruct Hin |].
      cbn [compile_rules]. intros acc Hc.
      destruct (compile_path (path r')) as [regex | e] eqn:Hr'; [| discriminate].
      destruct Hin as [Heq | Hin].
      - injection Heq as -> ->. eauto.
      - eapply IH; eauto. }
    destruct Hr as [regex Hr].
    rewrite (rule_matches_ckey r (regex, rank r) p v Hr eq_refl).
    apply H. apply (compile_rules_keys rules [] c Hc). right.
    exists r, s. auto.
  - intros k Hin. apply (compile_rules_keys rules [] c Hc) in Hin.
    destruct Hin as [[] | (r & s & Hin & H1 & H2)].
    rewrite <- (rule_matches_ckey r k p v H1 H2). eauto.
Qed.

Lemma uniform_regex_matches (path_regex : option Pattern) (p : string) :
  uniform (regex_matches path_regex p).
Proof.
  destruct path_regex; cbn [regex_matches];
    auto using uniform_ret, uniform_bind, uniform_emit.
Qed.

Lemma uniform_maybe_constrain (compiled : list (CKey * RuleSpec))
    (batch : Batch) (p : string) (v : Tensor) :
  uniform (maybe_constrain compiled batch p v).
Proof.
  induction compiled as [| [[path_regex rk] spec] c IH]; cbn [maybe_constrain].
  - apply uniform_raise.
  - apply uniform_if; [exact IH |].
    apply uniform_bind; [apply uniform_regex_matches |].
    intros matched. apply uniform_if; [exact IH |].
    apply uniform_if; [| apply uniform_ret].
    repeat (apply uniform_bind; [| intros ?]);
      auto using uniform_emit, uniform_lift, uniform_ret.
Qed.

(** What [maybe_constrain] returns: the leaf constrained by the first key
    of [compiled] that matches it. *)
Lemma maybe_constrain_result (compiled : list (CKey * RuleSpec))
    (batch : Batch) (p : string) (v : Tensor) :
  fst (maybe_constrain compiled batch p v []) =
  match first_ckey_match compiled p v with
  | None => Raise (ValueError (no_rules_matched p))
  | Some spec =>
      if is_not_UNCONSTRAINED spec then
        match py_len batch with
        | Ok _ => Ok (with_sharding_constraint v spec)
        | Raise e => Raise e
        end
      else Ok v
  end.
Proof.
  induction compiled as [| [[path_regex rk] spec] c IH];
    cbn [maybe_constrain first_ckey_match].
  - reflexivity.
  - unfold ckey_matches. cbn [fst snd].
    destruct (rank_matches rk v); cbn [negb andb]; [| exact IH].
    assert (Hu := uniform_maybe_constrain c batch p v).
    destruct path_regex as [pat |]; cbn [regex_matches].
    + unfold bind, emit, ret. cbn [app].
      destruct (re_fullmatch pat p); cbn [negb].
      * destruct (is_not_UNCONSTRAINED spec); [| reflexivity].
        unfold lift. destruct (py_len batch); reflexivity.
      * rewrite (Hu [EvFullmatch pat p]). cbn [fst]. exact IH.
    + unfold bind, emit, ret. cbn [negb].
      destruct (is_not_UNCONSTRAINED spec); [| reflexivity].
      unfold lift. destruct (py_len batch); reflexivity.
Qed.

Lemma compile_rules_no_collision (rules : list (PathAndRank * RuleSpec)) :
  forall acc cl,
    compile_items rules = Ok cl ->
    NoDup (map fst (acc ++ cl)) ->
    compile_rules rules acc = Ok (acc ++ cl).
Proof.
  induction rules as [| [r s] rules IH]; cbn [compile_items compile_rules];
    intros acc cl Hcl Hnd.
  - injection Hcl as <-. now rewrite app_nil_r.
  - destruct (compile_path (path r)) as [regex | e]; [| discriminate].
    destruct (compile_items rules) as [l | e]; [| discriminate].
    injection Hcl as <-.
    rewrite dict_set_fresh.
    + replace (acc ++ (regex, rank r, s) :: l)
        with ((acc ++ [(regex, rank r, s)]) ++ l)
        by now rewrite <- app_assoc.
      apply IH; [reflexivity |]. now rewrite <- app_assoc.
    + rewrite map_app in Hnd. cbn [map fst] in Hnd.
      apply NoDup_remove_2 in Hnd. intros Hin. apply Hnd.
      apply in_or_app. now left.
Qed.

Lemma first_match_compile_items (rules : list (PathAndRank * RuleSpec))
    (p : string) (v : Tensor) :
  forall cl, compile_items rules = Ok cl ->
             first_ckey_match cl p v = first_match rules p v.
Proof.
  induction rules as [| [r s] rules IH]; cbn [compile_items first_match];
    intros cl Hcl.
  - now injection Hcl as <-.
  - destruct (compile_path (path r)) as [regex | e] eqn:Hr; [| discriminate].
    destruct (compile_items rules) as [l | e]; [| discriminate].
    injection Hcl as <-. cbn [first_ckey_match].
    rewrite (rule_matches_ckey r (regex, rank r) p v Hr eq_refl).
    now rewrite (IH l eq_refl).
Qed.

Lemma fn_in_mesh (compiled : list (CKey * RuleSpec)) (mesh : Mesh)
    (batch : Batch) (t : list Event) :
  empty mesh = false -> size mesh <> 1 ->
  fn compiled mesh batch t =
  (match fst (scan (maybe_constrain compiled batch) (leaves_with_paths batch)) with
   | None => Ok (tree_mapi (leaf_value (maybe_constrain compiled batch)) "" batch)
   | Some e => Raise e
   end,
   t ++ snd (scan (maybe_constrain compiled batch) (leaves_with_paths batch))).
Proof.
  intros He Hs. unfold fn. rewrite He.
  apply Z.eqb_neq in Hs. rewrite Hs. cbn [orb].
  apply tree_map2_scan. intros p v. apply uniform_maybe_constrain.
Qed.

(** C5: outside a mesh (the physical mesh is empty or has one device) the
    function returned by [partition_by_path_rank] returns the batch as it
    is and makes no call at all: no sharding constraint, no regex match, no
    exception, whatever the rules are. *)
Theorem fn_identity_outside_mesh
    (rules : list (PathAndRank * RuleSpec)) (f : InputPartitionFn)
    (mesh : Mesh) (batch : Batch) (t : list Event) :
  partition_by_path_rank rules = Ok f ->
  empty mesh = true \/ size mesh = 1 ->
  f mesh batch t = (Ok batch, t).
Proof.
  unfold partition_by_path_rank. intros Hf Hmesh.
  destruct (compile_rules rules []) as [compiled | e]; [| discriminate].
  injection Hf as <-. unfold fn.
  destruct Hmesh as [-> | ->]; [reflexivity |].
  now rewrite Z.eqb_refl, orb_true_r.
Qed.

(** C4: within a mesh of more than one device, when some leaf matches none
    of the rules, the function returned by [partition_by_path_rank] raises
    the [ValueError] of a leaf that matches no rule, and returns no
    batch. *)
Theorem fn_raises_when_no_rule_matches
    (rules : list (PathAndRank * RuleSpec)) (f : InputPartitionFn)
    (mesh : Mesh) (batch : Batch) (t : list Event) (p : string) (v : Tensor) :
  partition_by_path_rank rules = Ok f ->
  empty mesh = false -> 1 < size mesh ->
  In (p, v) (leaves_with_paths batch) ->
  (forall r spec, In (r, spec) rules -> rule_matches r p v = false) ->
  exists p' v' t',
    In (p', v') (leaves_with_paths batch)
    /\ (forall r spec, In (r, spec) rules -> rule_matches r p' v' = false)
    /\ f mesh batch t = (Raise (ValueError (no_rules_matched p')), t').
Proof.
  unfold partition_by_path_rank. intros Hf He Hs Hin Hno.
  destruct (compile_rules rules []) as [compiled | e] eqn:Hc; [| discriminate].
  injection Hf as <-.
  rewrite fn_in_mesh by (auto; lia).
  apply (no_ckey_iff_no_rule rules compiled p v Hc) in Hno.
  destruct (scan_some_bad (maybe_constrain compiled batch)
              (fun p _ => ValueError (no_rules_matched p))
              (leaves_with_paths batch)) as (p1 & v1 & Hin1 & Hbad & Hscan).
  - intros p' v' Hin'. rewrite maybe_constrain_result.
    destruct (first_ckey_match compiled p' v') as [spec |] eqn:Hm; [| now right].
    left. destruct (is_not_UNCONSTRAINED spec); [| eauto].
    destruct batch as [a | items]; [| cbn; eauto].
    destruct Hin as [Heq | []]. destruct Hin' as [Heq' | []].
    congruence.
  - exists p, v. split; [exact Hin |].
    rewrite maybe_constrain_result. now rewrite Hno.
  - exists p1, v1, (t ++ snd (scan (maybe_constrain compiled batch)
                              (leaves_with_paths batch))).
    rewrite Hscan. repeat split; auto.
    apply (no_ckey_iff_no_rule rules compiled p1 v1 Hc).
    rewrite maybe_constrain_result in Hbad.
    destruct (first_ckey_match compiled p1 v1) as [spec |]; [| reflexivity].
    destruct (is_not_UNCONSTRAINED spec); [| discriminate].
    destruct (py_len batch) eqn:Hlen; [discriminate |].
    destruct batch as [a | items]; [| discriminate].
    cbn in Hlen. destruct (shape a); [| discriminate].
    injection Hlen as <-. discriminate.
Qed.

(** C1, at the input where the code departs from it: two rules, a regex
    string and the compiled pattern of the same regex, with the same rank.
    They become one key of [compiled], which keeps the place of the first
    rule and the spec of the second: a leaf both rules match, whose first
    matching rule in mapping order maps to [S1], is constrained by [S2]. *)
Theorem later_equal_key_overrides_first_rule
    (s p : string) (pat : Pattern) (r : Z) (S1 S2 : RuleSpec) (v : Tensor)
    (mesh : Mesh) (t : list Event) :
  re_compile s = Some pat -> re_fullmatch pat p = true -> ndim v = r ->
  is_not_UNCONSTRAINED S2 = true ->
  empty mesh = false -> size mesh <> 1 ->
  first_match
    [({| path := Some (PStr s); rank := Some r |}, S1);
     ({| path := Some (PPat pat); rank := Some r |}, S2)] p v = Some S1
  /\ exists f,
      partition_by_path_rank
        [({| path := Some (PStr s); rank := Some r |}, S1);
         ({| path := Some (PPat pat); rank := Some r |}, S2)] = Ok f
      /\ f mesh (Dict [(p, Leaf v)]) t =
         (Ok (Dict [(p, Leaf (with_sharding_constraint v S2))]),
          t ++ [EvFullmatch pat p; EvShardingConstraint v S2;
                EvLogFirstN "Constraining input_batch[%s] with %s." 1 p S2]).
Proof.
  intros Hc Hm Hr HS2 He Hs.
  assert (Hrk : rank_matches (Some r) v = true)
    by (cbn; now apply Z.eqb_eq).
  split.
  - cbn [first_match]. unfold rule_matches. cbn [path rank compile_path compile_key].
    now rewrite Hc, Hrk, Hm.
  - unfold partition_by_path_rank.
    cbn [compile_rules path rank compile_path compile_key dict_set].
    rewrite Hc. cbn [dict_set].
    assert (Hk : CKey_eqb (Some pat, Some r) (Some pat, Some r) = true)
      by now apply CKey_eqb_eq.
    rewrite Hk. eexists. split; [reflexivity |].
    unfold fn. rewrite He. apply Z.eqb_neq in Hs. rewrite Hs. cbn [orb].
    cbn [tree_paths tree_paths_from map fst snd tree_map2 map2M join_path].
    rewrite String.eqb_refl.
    cbn [maybe_constrain]. rewrite Hrk. cbn [negb regex_matches].
    unfold bind, emit, ret, lift. rewrite Hm, HS2. cbn.
    now rewrite <- !app_assoc.
Qed.

End Rules.

Import Examples.

(** The rules and the batch of the examples: one rank-1 leaf under "a". *)
Lemma fn_identity_outside_mesh_witness :
  partition_by_path_rank (J := recording_jax) (R := literal_re) []
  = Ok (fn [])
  /\ (empty mesh1 = true \/ size mesh1 = 1)
  /\ fn (J := recording_jax) (R := literal_re) [] mesh1
       (Dict [("a"%string, Leaf (vec 3))]) []
     = (Ok (Dict [("a"%string, Leaf (vec 3))]), []).
Proof.
  assert (H1 : partition_by_path_rank (J := recording_jax) (R := literal_re) []
               = Ok (fn [])) by reflexivity.
  assert (H2 : empty mesh1 = true \/ size mesh1 = 1) by (right; reflexivity).
  exact (conj H1 (conj H2
    (fn_identity_outside_mesh (J := recording_jax) (R := literal_re)
       [] (fn []) mesh1
       (Dict [("a"%string, Leaf (vec 3))]) [] H1 H2))).
Defined.

Lemma fn_raises_when_no_rule_matches_witness :
  exists p' v' t',
    In (p', v') (leaves_with_paths (Dict [("a"%string, Leaf (vec 3))]))
    /\ (forall r spec,
          In (r, spec)
            [({| path := Some (PStr ".*"); rank := Some 2 |}, RSpec data_spec)] ->
          rule_matches (J := recording_jax) (R := literal_re) r p' v' = false)
    /\ fn (J := recording_jax) (R := literal_re)
         (compiled_of [((Some ".*"%string, Some 2), RSpec data_spec)]) mesh2
         (Dict [("a"%string, Leaf (vec 3))]) []
       = (Raise (ValueError (no_rules_matched p')), t').
Proof.
  apply (fn_raises_when_no_rule_matches
           (J := recording_jax) (R := literal_re)
           [({| path := Some (PStr ".*"); rank := Some 2 |}, RSpec data_spec)]
           (fn (compiled_of [((Some ".*"%string, Some 2), RSpec data_spec)]))
           mesh2
           (Dict [("a"%string, Leaf (vec 3))]) [] "a"%string (vec 3)).
  - reflexivity.
  - reflexivity.
  - reflexivity.
  - left. reflexivity.
  - intros r spec [H | []]. injection H as <- _. reflexivity.
Defined.

Lemma later_equal_key_overrides_first_rule_witness :
  first_match (J := recording_jax) (R := literal_re)
    [({| path := Some (PStr "a"); rank := Some 1 |}, RSpec [EAxis "data"]);
     ({| path := Some (PPat (lit "a"));
         rank := Some 1 |}, RSpec [EAxis "model"])]
    "a" (vec 3) = Some (RSpec [EAxis "data"])
  /\ exists f,
      partition_by_path_rank (J := recording_jax) (R := literal_re)
        [({| path := Some (PStr "a"); rank := Some 1 |}, RSpec [EAxis "data"]);
         ({| path := Some (PPat (lit "a"));
             rank := Some 1 |}, RSpec [EAxis "model"])] = Ok f
      /\ f mesh2 (Dict [("a"%string, Leaf (vec 3))]) [] =
         (Ok (Dict [("a"%string,
                     Leaf (with_sharding_constraint (JaxRuntime := recording_jax)
                             (vec 3) (RSpec [EAxis "model"])))]),
          [] ++ [EvFullmatch (lit "a") "a";
                 EvShardingConstraint (vec 3) (RSpec [EAxis "model"]);
                 EvLogFirstN "Constraining input_batch[%s] with %s." 1 "a"
                   (RSpec [EAxis "model"])]).
Proof.
  apply (later_equal_key_overrides_first_rule
           (J := recording_jax) (R := literal_re)
           "a" "a" (lit "a") 1 (RSpec [EAxis "data"]) (RSpec [EAxis "model"])
           (vec 3) mesh2 []); try reflexivity.
  cbn. discriminate.
Defined.

End PartitionFacts.

(** ** [input_base.py]: [class Input] *)

Module InputFacts.
Import InputBase PyFacts TreeFacts.

Section InputClass.
Context {J : JaxRuntime} {R : ReEngine} {U : AxlearnUtils}.

Lemma has_input_dispatcher_init (cfg : Config) :
  has_input_dispatcher (Input_init cfg) =
  match cfg_input_dispatcher cfg with Some _ => true | None => false end.
Proof. unfold has_input_dispatcher, Input_init. now destruct (cfg_input_dispatcher cfg). Qed.

Lemma batches_body_init (cfg : Config) (input_batch : Batch) :
  batches_body (Input_init cfg) input_batch = Ok (physical_of cfg input_batch).
Proof.
  unfold batches_body, physical_of. rewrite has_input_dispatcher_init.
  unfold get_input_dispatcher, Input_init. cbn [input_dispatcher].
  now destruct (cfg_input_dispatcher cfg).
Qed.

(** C6: the generator [batches(it)] of an [Input] built from [cfg] yields
    one batch for each batch it pulls from [it], in the same order, and
    stops when [it] stops; each batch yielded is [as_numpy_array] of the
    input batch, passed through [logical_to_physical_batch] of the
    dispatcher exactly when [cfg.input_dispatcher] is set. *)
Theorem batches_one_output_per_input {Iter : Type}
    (next : Iter -> option (Batch * Iter)) (cfg : Config) (n : nat) (it : Iter) :
  take_iter (batches_next next (Input_init cfg)) n it
  = map (fun input_batch => Ok (physical_of cfg input_batch)) (take_iter next n it)
  /\ (batches_next next (Input_init cfg) it = None <-> next it = None)
  /\ (forall dcfg input_batch,
        cfg_input_dispatcher cfg = Some dcfg ->
        physical_of cfg input_batch =
        logical_to_physical_batch
          (instantiate_dispatcher dcfg (partition_spec cfg))
          (as_numpy_array input_batch))
  /\ (forall input_batch,
        cfg_input_dispatcher cfg = None ->
        physical_of cfg input_batch = as_numpy_array input_batch).
Proof.
  repeat split.
  - revert it. induction n as [| n IH]; intros it; cbn [take_iter]; [reflexivity |].
    unfold batches_next at 1. destruct (next it) as [[b it'] |]; [| reflexivity].
    cbn [map]. now rewrite batches_body_init, IH.
  - unfold batches_next. now destruct (next it) as [[b it'] |].
  - unfold batches_next. now intros ->.
  - intros dcfg b H. unfold physical_of. now rewrite H.
  - intros b H. unfold physical_of. now rewrite H.
Qed.

Lemma uniform_constrain_batch_axis (self : Input) (mesh : Mesh) (p : string)
    (v : Tensor) :
  uniform (constrain_batch_axis self mesh p v).
Proof.
  unfold constrain_batch_axis.
  repeat (apply uniform_bind; [| intros ?]);
    auto using uniform_emit, uniform_lift, uniform_ret, uniform_if.
Qed.

(** One leaf through [constrain_batch_axis]: the warning when the batch
    dimension does not divide, then the constraint, in either case. *)
Lemma constrain_batch_axis_run (self : Input) (mesh : Mesh) (p : string)
    (v : Tensor) (t : list Event) (entry : SpecEntry) (parts : Z) :
  spec_getitem0 (_partition_spec self) = Ok entry ->
  prod_axes mesh (entry_leaves entry) = Ok parts ->
  parts <> 0 ->
  shape v <> [] ->
  constrain_batch_axis self mesh p v t =
  (Ok (with_sharding_constraint v (RSpec (_partition_spec self))),
   t ++ batch_axis_events self parts p v).
Proof.
  intros He Hp Hnz Hv. unfold constrain_batch_axis, batch_axis_events, shape0.
  rewrite He, bind_lift_ok, Hp, bind_lift_ok.
  destruct (shape v) as [| d rest]; [congruence |].
  rewrite bind_lift_ok. unfold py_mod.
  apply Z.eqb_neq in Hnz. rewrite Hnz, bind_lift_ok.
  destruct (d mod parts =? 0); cbn [negb].
  - now rewrite bind_ret, bind_emit.
  - rewrite !bind_emit. unfold ret. now rewrite <- app_assoc.
Qed.

Lemma constrain_batch_run (self : Input) (mesh : Mesh) (batch : Batch)
    (t : list Event) (entry : SpecEntry) (parts : Z) :
  spec_getitem0 (_partition_spec self) = Ok entry ->
  prod_axes mesh (entry_leaves entry) = Ok parts ->
  parts <> 0 ->
  all_batched batch ->
  constrain_batch self mesh batch t =
  (Ok (constrained self batch), t ++ constrain_events self parts batch).
Proof.
  intros He Hp Hnz Hall. unfold constrain_batch, tree_paths.
  rewrite (tree_map2_scan _ (uniform_constrain_batch_axis self mesh)).
  fold (leaves_with_paths batch).
  assert (Hleaf : forall p v, In (p, v) (leaves_with_paths batch) ->
            constrain_batch_axis self mesh p v [] =
            (Ok (with_sharding_constraint v (RSpec (_partition_spec self))),
             batch_axis_events self parts p v)).
  { intros p v Hin.
    rewrite (constrain_batch_axis_run self mesh p v [] entry parts); auto.
    unfold all_batched in Hall. rewrite Forall_forall in Hall.
    exact (Hall (p, v) Hin). }
  rewrite (scan_all_ok _
             (fun _ v => with_sharding_constraint v (RSpec (_partition_spec self)))
             (batch_axis_events self parts) _ Hleaf).
  cbn [fst snd]. unfold constrained, constrain_events. f_equal. f_equal.
  apply tree_mapi_ext. intros p v Hin. unfold leaf_value.
  now rewrite (Hleaf p v Hin).
Qed.

(** The run of [dispatch_global_batch] with a dispatcher configured. *)
Lemma dispatch_run_dispatcher (cfg : Config) (dcfg : DispatcherConfig)
    (mesh : Mesh) (b : Batch) (t : list Event) (entry : SpecEntry) (parts : Z) :
  cfg_input_dispatcher cfg = Some dcfg ->
  spec_getitem0 (_partition_spec (Input_init cfg)) = Ok entry ->
  prod_axes mesh (entry_leaves entry) = Ok parts ->
  parts <> 0 ->
  all_batched b ->
  all_batched (physical_to_logical_batch
                 (instantiate_dispatcher dcfg (partition_spec cfg))
                 (constrained (Input_init cfg) b)) ->
  dispatch_global_batch (Input_init cfg) mesh b t =
  apply_partitioner (Input_init cfg) mesh
    (constrained (Input_init cfg)
       (physical_to_logical_batch
          (instantiate_dispatcher dcfg (partition_spec cfg))
          (constrained (Input_init cfg) b)))
    (t ++ constrain_events (Input_init cfg) parts b
       ++ [EvPhysicalToLogical (constrained (Input_init cfg) b)]
       ++ constrain_events (Input_init cfg) parts
            (physical_to_logical_batch
               (instantiate_dispatcher dcfg (partition_spec cfg))
               (constrained (Input_init cfg) b))).
Proof.
  intros Hd He Hp Hnz Hb Hl. unfold dispatch_global_batch.
  rewrite has_input_dispatcher_init, Hd.
  assert (Hget : get_input_dispatcher (Input_init cfg)
                 = Ok (instantiate_dispatcher dcfg (partition_spec cfg))).
  { unfold get_input_dispatcher, Input_init. cbn [input_dispatcher].
    now rewrite Hd. }
  rewrite Hget.
  erewrite bind_run;
    [| rewrite bind_lift_ok;
       erewrite bind_run
         by exact (constrain_batch_run _ mesh b t entry parts He Hp Hnz Hb);
       rewrite bind_emit; reflexivity].
  erewrite bind_run
    by exact (constrain_batch_run _ mesh _ _ entry parts He Hp Hnz Hl).
  fold (apply_partitioner (Input_init cfg) mesh).
  now rewrite <- !app_assoc.
Qed.

(** The run of [dispatch_global_batch] with no dispatcher configured. *)
Lemma dispatch_run_plain (cfg : Config) (mesh : Mesh) (b : Batch)
    (t : list Event) (entry : SpecEntry) (parts : Z) :
  cfg_input_dispatcher cfg = None ->
  spec_getitem0 (_partition_spec (Input_init cfg)) = Ok entry ->
  prod_axes mesh (entry_leaves entry) = Ok parts ->
  parts <> 0 ->
  all_batched (dispatch_input_batch b entry) ->
  dispatch_global_batch (Input_init cfg) mesh b t =
  apply_partitioner (Input_init cfg) mesh
    (constrained (Input_init cfg) (dispatch_input_batch b entry))
    (t ++ [EvDispatchInputBatch b entry]
       ++ constrain_events (Input_init cfg) parts (dispatch_input_batch b entry)).
Proof.
  intros Hd He Hp Hnz Hl. unfold dispatch_global_batch.
  rewrite has_input_dispatcher_init, Hd, He.
  erewrite bind_run; [| rewrite bind_lift_ok, bind_emit; reflexivity].
  erewrite bind_run
    by exact (constrain_batch_run _ mesh _ _ entry parts He Hp Hnz Hl).
  fold (apply_partitioner (Input_init cfg) mesh).
  now rewrite <- !app_assoc.
Qed.

(** C2, as the code has it: with a dispatcher configured, every leaf of
    the physical batch is constrained, the dispatcher's
    [physical_to_logical_batch] converts the constrained batch, every leaf
    of the logical batch is constrained, and the partitioner comes last;
    with no dispatcher, the physical batch goes to [dispatch_input_batch]
    with the batch axis names as it is, and only the logical batch is
    constrained.  What is returned is what the partitioner returns when
    one is configured, and the constrained logical batch otherwise. *)
Theorem dispatch_global_batch_steps (cfg : Config) (mesh : Mesh) (b : Batch)
    (t : list Event) (entry : SpecEntry) (parts : Z) :
  spec_getitem0 (_partition_spec (Input_init cfg)) = Ok entry ->
  prod_axes mesh (entry_leaves entry) = Ok parts ->
  parts <> 0 ->
  match cfg_input_dispatcher cfg with
  | Some dcfg =>
      all_batched b ->
      all_batched (physical_to_logical_batch
                     (instantiate_dispatcher dcfg (partition_spec cfg))
                     (constrained (Input_init cfg) b)) ->
      dispatch_global_batch (Input_init cfg) mesh b t =
      apply_partitioner (Input_init cfg) mesh
        (constrained (Input_init cfg)
           (physical_to_logical_batch
              (instantiate_dispatcher dcfg (partition_spec cfg))
              (constrained (Input_init cfg) b)))
        (t ++ constrain_events (Input_init cfg) parts b
           ++ [EvPhysicalToLogical (constrained (Input_init cfg) b)]
           ++ constrain_events (Input_init cfg) parts
                (physical_to_logical_batch
                   (instantiate_dispatcher dcfg (partition_spec cfg))
                   (constrained (Input_init cfg) b)))
  | None =>
      all_batched (dispatch_input_batch b entry) ->
      dispatch_global_batch (Input_init cfg) mesh b t =
      apply_partitioner (Input_init cfg) mesh
        (constrained (Input_init cfg) (dispatch_input_batch b entry))
        (t ++ [EvDispatchInputBatch b entry]
           ++ constrain_events (Input_init cfg) parts
                (dispatch_input_batch b entry))
  end
  /\ (forall partitioner x t',
        cfg_input_partitioner cfg = Some partitioner ->
        apply_partitioner (Input_init cfg) mesh x t' = partitioner mesh x t')
  /\ (forall x t',
        cfg_input_partitioner cfg = None ->
        apply_partitioner (Input_init cfg) mesh x t' = (Ok x, t')).
Proof.
  intros He Hp Hnz. split; [| split].
  - destruct (cfg_input_dispatcher cfg) as [dcfg |] eqn:Hd.
    + intros Hb Hl.
      now apply (dispatch_run_dispatcher cfg dcfg mesh b t entry parts).
    + intros Hl. now apply (dispatch_run_plain cfg mesh b t entry parts).
  - intros partitioner x t' H. unfold apply_partitioner, Input_init.
    cbn [_input_partitioner]. now rewrite H.
  - intros x t' H. unfold apply_partitioner, Input_init.
    cbn [_input_partitioner]. now rewrite H.
Qed.

Lemma flat_map_in_split {X Y : Type} (g : X -> list Y) (x : X) (l : list X) :
  In x l -> exists l1 l2, flat_map g l = l1 ++ g x ++ l2.
Proof.
  intros Hin. destruct (in_split x l Hin) as (a & b & ->).
  exists (flat_map g a), (flat_map g b).
  now rewrite flat_map_app.
Qed.

(** A leaf that the batch partitions do not divide, in one pass of
    [constrain_batch_axis] over a batch: the warning, then the
    constraint. *)
Lemma constrain_events_nondivisible (self : Input) (parts : Z) (x : Batch)
    (p : string) (v : Tensor) (d : Z) (rest : list Z) :
  In (p, v) (leaves_with_paths x) ->
  shape v = d :: rest ->
  d mod parts <> 0 ->
  exists l1 l2,
    constrain_events self parts x
    = l1 ++ [EvLogWarning constrain_warning p d parts (_partition_spec self);
             EvShardingConstraint v (RSpec (_partition_spec self))] ++ l2.
Proof.
  intros Hin Hv Hmod.
  destruct (flat_map_in_split
              (fun pv => batch_axis_events self parts (fst pv) (snd pv))
              (p, v) _ Hin) as (l1 & l2 & Hsplit).
  unfold constrain_events. rewrite Hsplit. cbn [fst snd].
  unfold batch_axis_events at 1. rewrite Hv.
  apply Z.eqb_neq in Hmod. rewrite Hmod. cbn [negb].
  exists l1, l2. reflexivity.
Qed.

Lemma constrained_leaves (self : Input) (x : Batch) (p : string) (v : Tensor) :
  In (p, v) (leaves_with_paths x) ->
  In (p, with_sharding_constraint v (RSpec (_partition_spec self)))
     (leaves_with_paths (constrained self x)).
Proof.
  intros Hin. unfold constrained, leaves_with_paths.
  rewrite leaves_from_tree_mapi.
  apply (in_map (fun pv => (fst pv, with_sharding_constraint (snd pv)
                                      (RSpec (_partition_spec self))))
           _ _ Hin).
Qed.

(** C3, as the code has it.  With a dispatcher configured, a leaf of the
    physical batch whose 0th dimension the batch partitions do not divide
    is warned about and then constrained, with nothing raised up to the
    partitioner; in the batch handed to the dispatcher it is replaced by
    [with_sharding_constraint(leaf, partition_spec)], as every other leaf
    is.  With no dispatcher, the physical batch goes to
    [dispatch_input_batch] first, and all of this holds of the leaves of
    the batch that [dispatch_input_batch] returns. *)
Theorem dispatch_constrains_nondivisible_leaf (cfg : Config)
    (mesh : Mesh) (b : Batch) (t : list Event)
    (entry : SpecEntry) (parts : Z) (p : string) (v : Tensor)
    (d : Z) (rest : list Z) :
  spec_getitem0 (_partition_spec (Input_init cfg)) = Ok entry ->
  prod_axes mesh (entry_leaves entry) = Ok parts ->
  parts <> 0 ->
  shape v = d :: rest ->
  d mod parts <> 0 ->
  match cfg_input_dispatcher cfg with
  | Some dcfg =>
      all_batched b ->
      all_batched (physical_to_logical_batch
                     (instantiate_dispatcher dcfg (partition_spec cfg))
                     (constrained (Input_init cfg) b)) ->
      In (p, v) (leaves_with_paths b) ->
      (exists t1 t2,
         dispatch_global_batch (Input_init cfg) mesh b t =
         apply_partitioner (Input_init cfg) mesh
           (constrained (Input_init cfg)
              (physical_to_logical_batch
                 (instantiate_dispatcher dcfg (partition_spec cfg))
                 (constrained (Input_init cfg) b)))
           (t ++ t1
              ++ [EvLogWarning constrain_warning p d parts
                    (_partition_spec (Input_init cfg));
                  EvShardingConstraint v
                    (RSpec (_partition_spec (Input_init cfg)))]
              ++ t2))
      /\ In (p, with_sharding_constraint v
                  (RSpec (_partition_spec (Input_init cfg))))
            (leaves_with_paths (constrained (Input_init cfg) b))
      /\ (forall p' v',
            In (p', v') (leaves_with_paths b) ->
            In (p', with_sharding_constraint v'
                      (RSpec (_partition_spec (Input_init cfg))))
               (leaves_with_paths (constrained (Input_init cfg) b)))
  | None =>
      all_batched (dispatch_input_batch b entry) ->
      In (p, v) (leaves_with_paths (dispatch_input_batch b entry)) ->
      (exists t1 t2,
         dispatch_global_batch (Input_init cfg) mesh b t =
         apply_partitioner (Input_init cfg) mesh
           (constrained (Input_init cfg) (dispatch_input_batch b entry))
           (t ++ [EvDispatchInputBatch b entry] ++ t1
              ++ [EvLogWarning constrain_warning p d parts
                    (_partition_spec (Input_init cfg));
                  EvShardingConstraint v
                    (RSpec (_partition_spec (Input_init cfg)))]
              ++ t2))
      /\ In (p, with_sharding_constraint v
                  (RSpec (_partition_spec (Input_init cfg))))
            (leaves_with_paths
               (constrained (Input_init cfg) (dispatch_input_batch b entry)))
      /\ (forall p' v',
            In (p', v') (leaves_with_paths (dispatch_input_batch b entry)) ->
            In (p', with_sharding_constraint v'
                      (RSpec (_partition_spec (Input_init cfg))))
               (leaves_with_paths
                  (constrained (Input_init cfg)
                     (dispatch_input_batch b entry))))
  end.
Proof.
  intros He Hp Hnz Hv Hmod.
  destruct (cfg_input_dispatcher cfg) as [dcfg |] eqn:Hd.
  - intros Hb Hl Hin.
    split; [| split; [now apply constrained_leaves |
                      intros p' v'; apply constrained_leaves]].
    rewrite (dispatch_run_dispatcher cfg dcfg mesh b t entry parts)
      by assumption.
    destruct (constrain_events_nondivisible (Input_init cfg) parts b p v d rest
                Hin Hv Hmod) as (l1 & l2 & ->).
    exists l1. eexists. f_equal. rewrite <- !app_assoc. cbn [app]. reflexivity.
  - intros Hl Hin.
    split; [| split; [now apply constrained_leaves |
                      intros p' v'; apply constrained_leaves]].
    rewrite (dispatch_run_plain cfg mesh b t entry parts) by assumption.
    destruct (constrain_events_nondivisible (Input_init cfg) parts
                (dispatch_input_batch b entry) p v d rest Hin Hv Hmod)
      as (l1 & l2 & ->).
    exists l1, l2. reflexivity.
Qed.

End InputClass.

Import Examples.
#[local] Existing Instances recording_jax literal_re toy_utils.

Lemma dispatch_global_batch_steps_witness :
  spec_getitem0 (_partition_spec (Input_init cfg_plain)) = Ok (EAxis "data")
  /\ prod_axes mesh2 (entry_leaves (EAxis "data")) = Ok 2
  /\ 2 <> 0
  /\ dispatch_global_batch (Input_init cfg_plain) mesh2
       (Dict [("a"%string, Leaf (vec 3))]) []
     = (Ok (Dict [("a"%string,
                   Leaf (with_sharding_constraint (first_two (vec 3))
                           (RSpec data_spec)))]),
        [EvDispatchInputBatch (Dict [("a"%string, Leaf (vec 3))]) (EAxis "data");
         EvShardingConstraint (first_two (vec 3)) (RSpec data_spec)]).
Proof.
  assert (H1 : spec_getitem0 (_partition_spec (Input_init cfg_plain))
               = Ok (EAxis "data")) by reflexivity.
  assert (H2 : prod_axes mesh2 (entry_leaves (EAxis "data")) = Ok 2)
    by reflexivity.
  assert (H3 : 2 <> 0) by discriminate.
  split; [exact H1 | split; [exact H2 | split; [exact H3 |]]].
  apply (proj1 (dispatch_global_batch_steps cfg_plain mesh2
                  (Dict [("a"%string, Leaf (vec 3))]) [] (EAxis "data") 2
                  H1 H2 H3)).
  constructor; [discriminate | constructor].
Defined.

(** Without a dispatcher, the code and the sentence about it part ways:
    the sentence has the physical leaf constrained (and warned about)
    before [dispatch_input_batch], the code hands it over as it is. *)
Lemma dispatch_plain_not_as_claimed :
  dispatch_global_batch (Input_init cfg_plain) mesh2
    (Dict [("a"%string, Leaf (vec 3))]) []
  <> dispatch_global_batch_as_claimed (Input_init cfg_plain) mesh2
       (Dict [("a"%string, Leaf (vec 3))]) [].
Proof.
  intros H. apply (f_equal snd) in H. apply (f_equal (@List.length _)) in H.
  vm_compute in H. discriminate H.
Qed.

Lemma dispatch_constrains_nondivisible_leaf_witness :
  ((exists t1 t2,
      dispatch_global_batch (Input_init cfg_dispatching) mesh2
        (Dict [("a"%string, Leaf (vec 3))]) [] =
      apply_partitioner (Input_init cfg_dispatching) mesh2
        (constrained (Input_init cfg_dispatching)
           (physical_to_logical_batch identity_dispatcher
              (constrained (Input_init cfg_dispatching)
                 (Dict [("a"%string, Leaf (vec 3))]))))
        ([] ++ t1
           ++ [EvLogWarning constrain_warning "a" 3 2 data_spec;
               EvShardingConstraint (vec 3) (RSpec data_spec)]
           ++ t2))
   /\ In ("a"%string, with_sharding_constraint (vec 3) (RSpec data_spec))
         (leaves_with_paths
            (constrained (Input_init cfg_dispatching)
               (Dict [("a"%string, Leaf (vec 3))])))
   /\ (forall p' v',
         In (p', v') (leaves_with_paths (Dict [("a"%string, Leaf (vec 3))])) ->
         In (p', with_sharding_constraint v' (RSpec data_spec))
            (leaves_with_paths
               (constrained (Input_init cfg_dispatching)
                  (Dict [("a"%string, Leaf (vec 3))])))))
  /\ exists t1 t2,
       dispatch_global_batch (U := keyed_utils) (Input_init cfg_keyed) mesh2
         (Dict [("a"%string, Leaf (vec 3))]) [] =
       apply_partitioner (Input_init cfg_keyed) mesh2
         (constrained (Input_init cfg_keyed)
            (dispatch_by_key (Dict [("a"%string, Leaf (vec 3))]) (EAxis "data")))
         ([] ++ [EvDispatchInputBatch (Dict [("a"%string, Leaf (vec 3))])
                   (EAxis "data")] ++ t1
            ++ [EvLogWarning constrain_warning "a" 3 2 data_spec;
                EvShardingConstraint
                  {| dims := [3]; constraints := [RSpec [EAxis "data"]] |}
                  (RSpec data_spec)]
            ++ t2).
Proof.
  split.
  - apply (dispatch_constrains_nondivisible_leaf cfg_dispatching mesh2
             (Dict [("a"%string, Leaf (vec 3))]) [] (EAxis "data") 2
             "a" (vec 3) 3 []); try reflexivity.
    + discriminate.
    + discriminate.
    + repeat constructor. discriminate.
    + repeat constructor. discriminate.
    + left. reflexivity.
  - assert (H := dispatch_constrains_nondivisible_leaf (U := keyed_utils)
                   cfg_keyed mesh2
                   (Dict [("a"%string, Leaf (vec 3))]) [] (EAxis "data") 2
                   "a" {| dims := [3]; constraints := [RSpec [EAxis "data"]] |}
                   3 [] eq_refl eq_refl ltac:(discriminate) eq_refl
                   ltac:(discriminate)).
    hnf in H.
    assert (Hl : all_batched
                   (dispatch_by_key (Dict [("a"%string, Leaf (vec 3))])
                      (EAxis "data")))
      by (repeat constructor; discriminate).
    assert (Hin : In ("a"%string,
                      {| dims := [3]; constraints := [RSpec [EAxis "data"]] |})
                    (leaves_with_paths
                       (dispatch_by_key (Dict [("a"%string, Leaf (vec 3))])
                          (EAxis "data"))))
      by (left; reflexivity).
    exact (proj1 (H Hl Hin)).
Defined.

(** Without a dispatcher a physical leaf reaches [constrain_batch_axis]
    only as [dispatch_input_batch] returns it.  Here the physical batch
    carries a dispatch tensor: its leaf ["x"] has 3 rows, which the 2 batch
    partitions do not divide, and [dispatch_input_batch] returns it with 2
    rows.  The run constrains that logical leaf and logs no warning at
    all. *)
Lemma dispatch_plain_leaves_physical_leaf_alone :
  In ("x"%string, vec 3) (leaves_with_paths keyed_batch)
  /\ shape (vec 3) = [3]
  /\ prod_axes mesh2 (entry_leaves (EAxis "data")) = Ok 2
  /\ 3 mod 2 <> 0
  /\ dispatch_global_batch (U := keyed_utils) (Input_init cfg_keyed) mesh2 keyed_batch []
     = (Ok (Dict [("x"%string,
                   Leaf {| dims := [2]; constraints := [RSpec data_spec] |})]),
        [EvDispatchInputBatch keyed_batch (EAxis "data");
         EvShardingConstraint {| dims := [2]; constraints := [] |}
           (RSpec data_spec)])
  /\ ~ (exists msg p d parts spec,
          In (EvLogWarning msg p d parts spec)
            (snd (dispatch_global_batch (U := keyed_utils) (Input_init cfg_keyed) mesh2
                    keyed_batch []))).
Proof.
  repeat split; try reflexivity.
  - now left.
  - discriminate.
  - cbn. intros (msg & p & d & parts & spec & [H | [H | []]]); discriminate H.
Qed.

End InputFacts.

(** ** [tpu_attention_benchmark.py] *)

Module BenchmarkFacts.
Import Benchmark PyFacts.

Section Bench.
Context {N : Numerics} {W : World}.

Lemma call_block_run (fn : Callable) (t : list Event) :
  bind (call fn) (fun a => bind (block_until_ready a) (fun _ => ret tt)) t
  = (Ok tt, t ++ one_call fn).
Proof.
  unfold call, block_until_ready, bind, emit, ret, one_call. cbn.
  now rewrite <- app_assoc.
Qed.

Lemma for_range_run (fn : Callable) (n : nat) :
  forall t,
    for_range n (bind (call fn)
                   (fun a => bind (block_until_ready a) (fun _ => ret tt))) t
    = (Ok tt, t ++ List.concat (repeat (one_call fn) n)).
Proof.
  induction n as [| n IH]; intros t; cbn [for_range repeat List.concat].
  - unfold ret. now rewrite app_nil_r.
  - erewrite bind_run by apply call_block_run.
    rewrite IH. now rewrite <- app_assoc.
Qed.

(** One [_time_call]: the warmup call, the clock, the timed calls, the
    clock, and the quotient. *)
Lemma _time_call_run (fn : Callable) (n : Z) (t : list Event) :
  _time_call fn n t = (true_div (elapsed fn n t) n, t ++ time_call_events fn n).
Proof.
  unfold _time_call.
  erewrite bind_run by (unfold call; rewrite bind_emit; reflexivity).
  erewrite bind_run by (unfold block_until_ready; rewrite bind_emit; reflexivity).
  erewrite bind_run by reflexivity.
  erewrite bind_run by apply for_range_run.
  erewrite bind_run by reflexivity.
  unfold lift, elapsed, tic_at, toc_at, time_call_events, one_call.
  rewrite <- !app_assoc. reflexivity.
Qed.

Lemma invocations_app (l1 l2 : list Event) :
  invocations (l1 ++ l2) = (invocations l1 + invocations l2)%nat.
Proof. unfold invocations. now rewrite filter_app, length_app. Qed.

Lemma invocations_repeat (fn : Callable) (k : nat) :
  invocations (List.concat (repeat (one_call fn) k)) = k.
Proof.
  induction k as [| k IH]; [reflexivity |].
  cbn [repeat List.concat]. rewrite invocations_app, IH. reflexivity.
Qed.

Lemma invocations_time_call (fn : Callable) (n : Z) :
  invocations (time_call_events fn n) = S (Z.to_nat n).
Proof.
  unfold time_call_events. rewrite !invocations_app, invocations_repeat.
  cbn. lia.
Qed.

Lemma in_time_call_events (fn : Callable) (n : Z) (e : Event) :
  In e (time_call_events fn n) ->
  e = EvCall fn \/ e = EvBlockUntilReady (call_result fn) \/ e = EvPerfCounter.
Proof.
  unfold time_call_events. rewrite !in_app_iff. intros [H | [H | [H | H]]].
  - cbn in H. intuition.
  - cbn in H. intuition.
  - apply in_concat in H. destruct H as (l & Hl & He).
    apply repeat_spec in Hl. subst l. cbn in He. intuition.
  - cbn in H. intuition.
Qed.

(** C9: for [num_iters >= 1], [_time_call] calls [fn] once before it
    reads the clock and [num_iters] times between the two readings of the
    clock, [num_iters + 1] times in all and nothing else; it returns the
    time between the two readings divided by [num_iters].  With the default
    [num_iters] that is six calls. *)
Theorem _time_call_invokes_fn (fn : Callable) (n : Z) (t : list Event) :
  1 <= n ->
  _time_call fn n t
  = (Ok (float_div_int
           (float_sub
              (perf_counter_value
                 (t ++ one_call fn ++ [EvPerfCounter]
                    ++ List.concat (repeat (one_call fn) (Z.to_nat n))))
              (perf_counter_value (t ++ one_call fn)))
           n),
     t ++ one_call fn ++ [EvPerfCounter]
       ++ List.concat (repeat (one_call fn) (Z.to_nat n)) ++ [EvPerfCounter])
  /\ Z.of_nat (invocations (snd (_time_call fn n []))) = n + 1
  /\ (forall e, In e (snd (_time_call fn n [])) ->
                is_call e = true -> e = EvCall fn)
  /\ invocations (snd (_time_call fn default_num_iters [])) = 6%nat.
Proof.
  intros Hn. split; [| split; [| split]].
  - rewrite _time_call_run. unfold true_div.
    destruct (n =? 0) eqn:H0; [apply Z.eqb_eq in H0; lia |]. reflexivity.
  - rewrite _time_call_run. cbn [snd app].
    rewrite invocations_time_call. lia.
  - rewrite _time_call_run. cbn [snd app]. intros e Hin Hcall.
    destruct (in_time_call_events fn n e Hin) as [-> | [-> | ->]];
      [reflexivity | discriminate | discriminate].
  - rewrite _time_call_run. cbn [snd app].
    now rewrite invocations_time_call.
Qed.

Lemma uniform_generate (a : BenchmarkArgs) : uniform (generate a).
Proof.
  intros t. unfold generate.
  destruct (is_PagedKVCache (kv_cache_type a)).
  - destruct (page_size a) as [ps |]; [| cbn; now rewrite app_nil_r].
    unfold bind, emit.
    now destruct (generate_paged_attention_data _ ps) as [[[[q k] v] pt] b].
  - unfold bind, emit.
    now destruct (generate_attention_data _) as [[[q k] v] b].
Qed.

(** Data generation succeeds, with one call to a generator, unless the
    cache is paged and no page size is given. *)
Lemma generate_ok (a : BenchmarkArgs) :
  (kv_cache_type a = Some PagedKVCache -> page_size a <> None) ->
  exists q k v pt b gen,
    generate a [] = (Ok (q, k, v, pt, b), gen)
    /\ forallb is_generate gen = true
    /\ gen <> [].
Proof.
  intros Hps. unfold generate.
  destruct (kv_cache_type a) as [[| | name] |] eqn:Hkv; cbn [is_PagedKVCache].
  2: { destruct (page_size a) as [ps |]; [| now destruct Hps].
       unfold bind, emit.
       destruct (generate_paged_attention_data _ ps) as [[[[q k] v] pt] b].
       exists q, k, v, (Some pt), b. eexists. cbn.
       repeat split. discriminate. }
  all: unfold bind, emit;
    destruct (generate_attention_data _) as [[[q k] v] b];
    exists q, k, v, None, b; eexists; cbn; repeat split; discriminate.
Qed.

Lemma true_div_default (x : float) :
  true_div x default_num_iters = Ok (float_div_int x default_num_iters).
Proof. reflexivity. Qed.

Lemma timed_pair_run {B : Type} (f1 f2 : Callable)
    (line : float -> float -> Line) (k : unit -> M Event B) (t : list Event) :
  bind (_time_call f1 default_num_iters)
    (fun r1 => bind (_time_call f2 default_num_iters)
       (fun r2 => bind (emit (EvPrint (line r1 r2))) k)) t
  = k tt (t ++ timed_pair f1 f2 line t).
Proof.
  erewrite bind_run by (rewrite _time_call_run, true_div_default; reflexivity).
  erewrite bind_run by (rewrite _time_call_run, true_div_default; reflexivity).
  rewrite bind_emit. unfold timed_pair, measured.
  now rewrite <- !app_assoc.
Qed.

Lemma timed_pair_run_last (f1 f2 : Callable)
    (line : float -> float -> Line) (t : list Event) :
  bind (_time_call f1 default_num_iters)
    (fun r1 => bind (_time_call f2 default_num_iters)
       (fun r2 => emit (EvPrint (line r1 r2)))) t
  = (Ok tt, t ++ timed_pair f1 f2 line t).
Proof.
  erewrite bind_run by (rewrite _time_call_run, true_div_default; reflexivity).
  erewrite bind_run by (rewrite _time_call_run, true_div_default; reflexivity).
  unfold emit, timed_pair, measured.
  now rewrite <- !app_assoc.
Qed.

(** The whole run of [_benchmark] once its arguments pass the checks. *)
Lemma _benchmark_run (a : BenchmarkArgs) (t : list Event)
    (q k v : Array) (pt : option Array) (b : Bias) (gen : list Event) :
  supported (kv_cache_type a) = true ->
  generate a [] = (Ok (q, k, v, pt, b), gen) ->
  _benchmark a t =
  (Ok tt,
   t ++ gen ++ setup_events a q k v pt b
     ++ timed_pair (ref_fwd_of a q k v pt b) (flash_fwd_of a q k v pt b) LineFwd
          (t ++ gen ++ setup_events a q k v pt b)
     ++ match kv_cache_type a with
        | None =>
            timed_pair (ref_bwd_of a q k v b) (flash_bwd_of a q k v pt b) LineBwd
              (t ++ gen ++ setup_events a q k v pt b
                 ++ timed_pair (ref_fwd_of a q k v pt b)
                      (flash_fwd_of a q k v pt b) LineFwd
                      (t ++ gen ++ setup_events a q k v pt b))
        | Some _ => []
        end).
Proof.
  intros Hsup Hgen. unfold _benchmark. rewrite Hsup. cbn [negb].
  rewrite bind_ret.
  erewrite bind_run
    by (rewrite uniform_generate, Hgen; cbn [fst snd]; reflexivity).
  cbn beta iota. rewrite !bind_emit.
  fold (softmax_scale_of q). fold (flash_args_of a q k v pt b).
  fold (ref_impl_of a q). fold (flash_impl_of a q k v pt b).
  fold (ref_fwd_of a q k v pt b). fold (flash_fwd_of a q k v pt b).
  destruct (kv_cache_type a) as [c |] eqn:Hkv.
  - rewrite timed_pair_run. unfold ret, setup_events.
    rewrite <- !app_assoc. cbn [app]. now rewrite app_nil_r.
  - fold (ref_bwd_of a q k v b). fold (flash_bwd_of a q k v pt b).
    rewrite timed_pair_run, timed_pair_run_last. unfold setup_events.
    rewrite <- !app_assoc. cbn [app]. reflexivity.
Qed.

Lemma no_bwd_app (l1 l2 : list Event) :
  no_bwd (l1 ++ l2) = no_bwd l1 && no_bwd l2.
Proof. apply forallb_app. Qed.

Lemma fwd_lines_app (l1 l2 : list Event) :
  fwd_lines (l1 ++ l2) = (fwd_lines l1 + fwd_lines l2)%nat.
Proof. unfold fwd_lines. now rewrite filter_app, length_app. Qed.

Lemma no_bwd_time_call (fn : Callable) (n : Z) :
  is_bwd (EvCall fn) = false -> no_bwd (time_call_events fn n) = true.
Proof.
  intros Hfn. apply forallb_forall. intros e Hin.
  destruct (in_time_call_events fn n e Hin) as [-> | [-> | ->]];
    [now rewrite Hfn | reflexivity | reflexivity].
Qed.

Lemma fwd_lines_none (l : list Event) :
  (forall e, In e l -> is_fwd_line e = false) -> fwd_lines l = 0%nat.
Proof.
  unfold fwd_lines. induction l as [| e l IH]; intros H; [reflexivity |].
  cbn [filter]. rewrite (H e (or_introl eq_refl)).
  apply IH. intros e' Hin. apply H. now right.
Qed.

Lemma fwd_lines_time_call (fn : Callable) (n : Z) :
  fwd_lines (time_call_events fn n) = 0%nat.
Proof.
  apply fwd_lines_none. intros e Hin.
  destruct (in_time_call_events fn n e Hin) as [-> | [-> | ->]]; reflexivity.
Qed.

Lemma generate_events_plain (gen : list Event) :
  forallb is_generate gen = true -> no_bwd gen = true /\ fwd_lines gen = 0%nat.
Proof.
  induction gen as [| e gen IH]; [now split |].
  cbn [forallb]. intros H. apply andb_prop in H. destruct H as [He Hg].
  destruct (IH Hg) as [H1 H2]. unfold no_bwd, fwd_lines in *.
  cbn [forallb filter]. rewrite H1.
  destruct e; try discriminate He; cbn; auto.
Qed.

(** A run for decoding ([kv_cache_type=KVCache]) times and reports the
    forward passes only. *)
Lemma _benchmark_decoding_run (a : BenchmarkArgs) (t : list Event) :
  kv_cache_type a = Some KVCache ->
  exists evs,
    _benchmark a t = (Ok tt, t ++ evs)
    /\ no_bwd evs = true /\ fwd_lines evs = 1%nat.
Proof.
  intros Hkv.
  destruct (generate_ok a) as (q & k & v & pt & b & gen & Hgen & Hg & _).
  { rewrite Hkv. discriminate. }
  destruct (generate_events_plain gen Hg) as [Hnb Hfl].
  rewrite (_benchmark_run a t q k v pt b gen) by (rewrite ?Hkv; auto).
  rewrite Hkv. eexists. split; [reflexivity |].
  unfold timed_pair.
  rewrite !no_bwd_app, !fwd_lines_app, Hnb, Hfl,
    !no_bwd_time_call, !fwd_lines_time_call by reflexivity.
  split; reflexivity.
Qed.

Lemma main_loop_run (device_kind : string)
    (configs : list (string * BenchConfig)) :
  forall t, exists evs,
    main_loop device_kind configs t = (Ok tt, t ++ evs)
    /\ no_bwd evs = true /\ fwd_lines evs = List.length configs.
Proof.
  induction configs as [| [name cfg] rest IH]; intros t; cbn [main_loop].
  - exists []. unfold ret. now rewrite app_nil_r.
  - rewrite bind_emit.
    destruct (_benchmark_decoding_run (main_args cfg)
                (t ++ [EvPrint (LineBanner name device_kind)]) eq_refl)
      as (evs1 & Hrun & Hnb1 & Hfl1).
    erewrite bind_run by exact Hrun.
    destruct (IH ((t ++ [EvPrint (LineBanner name device_kind)]) ++ evs1))
      as (evs2 & Hrest & Hnb2 & Hfl2).
    rewrite Hrest.
    exists ([EvPrint (LineBanner name device_kind)] ++ evs1 ++ evs2).
    rewrite !no_bwd_app, !fwd_lines_app, Hnb1, Hnb2, Hfl1, Hfl2.
    rewrite <- !app_assoc. repeat split.
Qed.

(** C7, for the runs that pass the argument checks: [_benchmark] generates
    the data, builds the two layers, times the forward pass of the
    reference and then of the flash implementation and prints the two
    times; it goes on to time and print the two backward passes exactly
    when [kv_cache_type] is [None].  The script, on a TPU backend, passes
    [KVCache] for every configuration: its run prints one forward line per
    configuration and times no backward pass. *)
Theorem _benchmark_times_forward_and_backward (a : BenchmarkArgs)
    (t : list Event) :
  supported (kv_cache_type a) = true ->
  (kv_cache_type a = Some PagedKVCache -> page_size a <> None) ->
  (exists q k v pt b gen,
     generate a [] = (Ok (q, k, v, pt, b), gen)
     /\ _benchmark a t =
        (Ok tt,
         t ++ gen ++ setup_events a q k v pt b
           ++ timed_pair (ref_fwd_of a q k v pt b) (flash_fwd_of a q k v pt b)
                LineFwd (t ++ gen ++ setup_events a q k v pt b)
           ++ match kv_cache_type a with
              | None =>
                  timed_pair (ref_bwd_of a q k v b) (flash_bwd_of a q k v pt b)
                    LineBwd
                    (t ++ gen ++ setup_events a q k v pt b
                       ++ timed_pair (ref_fwd_of a q k v pt b)
                            (flash_fwd_of a q k v pt b) LineFwd
                            (t ++ gen ++ setup_events a q k v pt b))
              | Some _ => []
              end))
  /\ (no_bwd (snd (_benchmark a [])) = true <-> kv_cache_type a <> None)
  /\ (forall device_kind others,
        default_backend = "tpu"%string ->
        device_kinds = device_kind :: others ->
        exists evs,
          main t = (Ok tt, t ++ evs)
          /\ no_bwd evs = true /\ fwd_lines evs = 6%nat).
Proof.
  intros Hsup Hps.
  destruct (generate_ok a Hps) as (q & k & v & pt & b & gen & Hgen & Hg & _).
  split; [| split].
  - exists q, k, v, pt, b, gen. split; [exact Hgen |].
    now apply _benchmark_run.
  - rewrite (_benchmark_run a [] q k v pt b gen Hsup Hgen). cbn [snd app].
    destruct (generate_events_plain gen Hg) as [Hnb _].
    destruct (kv_cache_type a) as [c |].
    + unfold timed_pair.
      rewrite !no_bwd_app, Hnb, !no_bwd_time_call by reflexivity.
      split; [discriminate | reflexivity].
    + split; [| congruence]. intros H. exfalso.
      unfold no_bwd in H. rewrite forallb_forall in H.
      assert (Hf : negb (is_bwd (EvCall (ref_bwd_of a q k v b))) = true).
      { apply H. rewrite !in_app_iff. right. right. right.
        unfold timed_pair, time_call_events, one_call.
        rewrite !in_app_iff. cbn [In]. tauto. }
      discriminate Hf.
  - intros device_kind others Hb Hd. unfold main, first_device_kind.
    rewrite Hb, Hd. cbn [String.eqb Ascii.eqb Bool.eqb py_assert].
    rewrite bind_ret, bind_lift_ok.
    destruct (main_loop_run device_kind _BENCHMARK_CONFIGS t)
      as (evs & Hrun & Hnb & Hfl).
    exists evs. auto.
Qed.

(** C8: on any backend but "tpu" the script stops at its assertion, before
    it looks at the devices or runs a configuration. *)
Theorem main_requires_tpu (t : list Event) :
  default_backend <> "tpu"%string ->
  main t = (Raise (AssertionError "Benchmarking requires a TPU backend."), t).
Proof.
  intros Hb. unfold main.
  destruct (String.eqb default_backend "tpu") eqn:H.
  - apply String.eqb_eq in H. contradiction.
  - reflexivity.
Qed.

(** C10: a [kv_cache_type] other than [None], [KVCache] and
    [PagedKVCache] makes [_benchmark] raise [NotImplementedError] with no
    call made; with [PagedKVCache] and no [page_size] the assertion fails
    with no call made, and with a [page_size] the paged data is generated
    first. *)
Theorem _benchmark_rejects_unsupported (a : BenchmarkArgs) (qualname : string)
    (t : list Event) :
  _benchmark (with_kv_cache_type a (Some (OtherKVCache qualname))) t
  = (Raise (NotImplementedError
              (not_supported_msg (Some (OtherKVCache qualname)))), t)
  /\ _benchmark (with_page_size (with_kv_cache_type a (Some PagedKVCache)) None) t
     = (Raise (AssertionError ""), t)
  /\ (forall ps, exists evs,
        _benchmark
          (with_page_size (with_kv_cache_type a (Some PagedKVCache)) (Some ps)) t
        = (Ok tt,
           t ++ EvGeneratePagedAttentionData
                  (data_args a 1 (seq_len a - 1)) ps :: evs)).
Proof.
  split; [reflexivity | split; [reflexivity |]].
  intros ps.
  destruct (generate_paged_attention_data (data_args a 1 (seq_len a - 1)) ps)
    as [[[[q k] v] pt] b] eqn:Hdata.
  eexists.
  rewrite (_benchmark_run _ t q k v (Some pt) b
             [EvGeneratePagedAttentionData (data_args a 1 (seq_len a - 1)) ps]).
  - cbn [app]. reflexivity.
  - reflexivity.
  - unfold generate. cbn [with_page_size with_kv_cache_type kv_cache_type
                            page_size is_PagedKVCache].
    rewrite bind_emit.
    change (data_args (with_page_size (with_kv_cache_type a (Some PagedKVCache))
                         (Some ps)) 1
              (seq_len (with_page_size
                          (with_kv_cache_type a (Some PagedKVCache)) (Some ps)) - 1))
      with (data_args a 1 (seq_len a - 1)).
    rewrite Hdata. reflexivity.
Qed.

End Bench.

Import Examples.
#[local] Existing Instance tick_numerics.

Lemma _time_call_invokes_fn_witness :
  1 <= 3
  /\ _time_call (W := tick_world "tpu") (OtherCallable "f") 3 []
     = (Ok 2,
        [EvCall (OtherCallable "f"); EvBlockUntilReady [];
         EvPerfCounter;
         EvCall (OtherCallable "f"); EvBlockUntilReady [];
         EvCall (OtherCallable "f"); EvBlockUntilReady [];
         EvCall (OtherCallable "f"); EvBlockUntilReady [];
         EvPerfCounter])
  /\ Z.of_nat (invocations
                 (snd (_time_call (W := tick_world "tpu") (OtherCallable "f") 3 [])))
     = 3 + 1.
Proof.
  assert (H : 1 <= 3) by lia.
  split; [exact H |].
  split.
  - exact (proj1 (_time_call_invokes_fn (W := tick_world "tpu")
                    (OtherCallable "f") 3 [] H)).
  - exact (proj1 (proj2 (_time_call_invokes_fn (W := tick_world "tpu")
                           (OtherCallable "f") 3 [] H))).
Defined.

Lemma _benchmark_times_forward_and_backward_witness :
  supported (kv_cache_type (sample_args None)) = true
  /\ (kv_cache_type (sample_args None) = Some PagedKVCache ->
      page_size (sample_args None) <> None)
  /\ (no_bwd (snd (_benchmark (W := tick_world "tpu") (sample_args None) []))
      = true <-> kv_cache_type (sample_args None) <> None)
  /\ (exists evs,
        main (W := tick_world "tpu") [] = (Ok tt, [] ++ evs)
        /\ no_bwd evs = true /\ fwd_lines evs = 6%nat).
Proof.
  assert (H1 : supported (kv_cache_type (sample_args None)) = true)
    by reflexivity.
  assert (H2 : kv_cache_type (sample_args None) = Some PagedKVCache ->
               page_size (sample_args None) <> None) by discriminate.
  exact (conj H1 (conj H2
    (conj
       (proj1 (proj2 (_benchmark_times_forward_and_backward
                        (W := tick_world "tpu") (sample_args None) [] H1 H2)))
       (proj2 (proj2 (_benchmark_times_forward_and_backward
                        (W := tick_world "tpu") (sample_args None) [] H1 H2))
          "TPU v5"%string [] eq_refl eq_refl)))).
Defined.

(** A run with a cache class the benchmark does not know times nothing and
    prints nothing. *)
Lemma _benchmark_unsupported_times_nothing :
  ~ (exists r f,
       In (EvPrint (LineFwd r f))
         (snd (_benchmark (W := tick_world "tpu")
                 (sample_args (Some (OtherKVCache "RingKVCache"))) [])))
  /\ invocations
       (snd (_benchmark (W := tick_world "tpu")
               (sample_args (Some (OtherKVCache "RingKVCache"))) []))
     = 0%nat.
Proof.
  split; [| reflexivity].
  intros (r & f & H). exact H.
Qed.

Lemma main_requires_tpu_witness :
  default_backend (World := tick_world "cpu") <> "tpu"%string
  /\ main (W := tick_world "cpu") []
     = (Raise (AssertionError "Benchmarking requires a TPU backend."), []).
Proof.
  assert (H : default_backend (World := tick_world "cpu") <> "tpu"%string)
    by discriminate.
  exact (conj H (main_requires_tpu (W := tick_world "cpu") [] H)).
Defined.

End BenchmarkFacts.

(** ** [partition_by_path_rank]: construction, results and calls *)

Module PartitionMore.
Import InputBase PyFacts TreeFacts PartitionFacts.

Lemma scan_fst_None_inv {E A : Type} (f : string -> A -> M E A)
    (l : list (string * A)) :
  fst (scan f l) = None ->
  forall p v, In (p, v) l -> exists b, fst (f p v []) = Ok b.
Proof.
  induction l as [| [p0 v0] l IH]; intros Hs p v Hin; [destruct Hin |].
  cbn [scan] in Hs.
  destruct (f p0 v0 []) as [[b | e] evs] eqn:Hf; cbn [fst] in Hs;
    [| discriminate].
  destruct Hin as [Heq | Hin]; [| now apply IH].
  injection Heq as <- <-. rewrite Hf. now exists b.
Qed.

Lemma scan_snd_ok {E A : Type} (f : string -> A -> M E A)
    (l : list (string * A)) :
  fst (scan f l) = None ->
  snd (scan f l) = flat_map (fun pv => snd (f (fst pv) (snd pv) [])) l.
Proof.
  induction l as [| [p v] l IH]; intros Hs; [reflexivity |].
  cbn [scan flat_map fst snd] in *.
  destruct (f p v []) as [[b | e] evs]; cbn [fst snd] in *; [| discriminate].
  now rewrite IH.
Qed.

Lemma scan_fst_Some_inv {E A : Type} (f : string -> A -> M E A)
    (l : list (string * A)) (e : Exn) :
  fst (scan f l) = Some e ->
  exists p v, In (p, v) l /\ fst (f p v []) = Raise e.
Proof.
  induction l as [| [p0 v0] l IH]; cbn [scan]; [discriminate |].
  destruct (f p0 v0 []) as [[b | e0] evs] eqn:Hf; cbn [fst].
  - intros Hs. destruct (IH Hs) as (p & v & Hin & Hr).
    exists p, v. split; [now right | exact Hr].
  - intros Hs. injection Hs as <-. exists p0, v0.
    split; [now left | now rewrite Hf].
Qed.

Lemma list_ascii_of_string_app (a b : string) :
  list_ascii_of_string (a ++ b)
  = (list_ascii_of_string a ++ list_ascii_of_string b)%list.
Proof.
  induction a as [| c a IH]; [reflexivity |].
  cbn [String.append list_ascii_of_string app]. now rewrite IH.
Qed.

Lemma string_app_inv_tail (a b s : string) :
  (a ++ s)%string = (b ++ s)%string -> a = b.
Proof.
  intros H. apply (f_equal list_ascii_of_string) in H.
  rewrite !list_ascii_of_string_app in H. apply app_inv_tail in H.
  apply (f_equal string_of_list_ascii) in H.
  now rewrite !string_of_list_ascii_of_string in H.
Qed.

Lemma string_app_inv_head (s a b : string) :
  (s ++ a)%string = (s ++ b)%string -> a = b.
Proof.
  induction s as [| c s IH]; cbn [String.append]; [auto |].
  intros H. injection H as H. auto.
Qed.

Lemma tree_paths_tree_mapi {A B : Type} (g : string -> A -> B) (b : Nested A) :
  forall pre, tree_paths_from pre (tree_mapi g pre b) = tree_paths_from pre b.
Proof.
  induction b as [a | items IH] using Nested_ind; intros pre; [reflexivity |].
  cbn [tree_mapi tree_paths_from]. f_equal. rewrite map_map. cbn [fst snd].
  induction IH as [| [k c] rest Hc _ IHrest]; [reflexivity |].
  cbn [map fst snd]. now rewrite Hc, IHrest.
Qed.

Section Rules.
Context {J : JaxRuntime} {R : ReEngine}.

Lemma in_dict_set_entry (k k' : CKey) (s s' : RuleSpec)
    (d : list (CKey * RuleSpec)) :
  In (k', s') (dict_set CKey_eqb k s d) ->
  In (k', s') d \/ (k' = k /\ s' = s).
Proof.
  induction d as [| [k0 s0] d IH]; cbn [dict_set In].
  - intros [H | []]. injection H as <- <-. auto.
  - destruct (CKey_eqb k0 k) eqn:Hk; cbn [In].
    + apply CKey_eqb_eq in Hk. subst k0.
      intros [H | H]; [injection H as <- <- |]; auto.
    + intros [H | H]; [auto |]. destruct (IH H); auto.
Qed.

(** Every entry of [compiled] carries the spec of a rule with that key. *)
Lemma compile_rules_entries (rules : list (PathAndRank * RuleSpec)) :
  forall acc c,
    compile_rules rules acc = Ok c ->
    forall k s, In (k, s) c ->
      In (k, s) acc
      \/ exists r, In (r, s) rules
                   /\ compile_path (path r) = Ok (fst k) /\ rank r = snd k.
Proof.
  induction rules as [| [r0 s0] rules IH]; cbn [compile_rules];
    intros acc c Hc k s Hin.
  - injection Hc as <-. now left.
  - destruct (compile_path (path r0)) as [regex | e] eqn:Hr; [| discriminate].
    destruct (IH _ _ Hc k s Hin) as [H | (r & H1 & H2 & H3)].
    + destruct (in_dict_set_entry _ _ _ _ _ H) as [H' | [-> ->]]; [now left |].
      right. exists r0. cbn. auto.
    + right. exists r. cbn. auto.
Qed.

Lemma first_ckey_match_Some (c : list (CKey * RuleSpec)) (p : string)
    (v : Tensor) (spec : RuleSpec) :
  first_ckey_match c p v = Some spec ->
  exists k, In (k, spec) c /\ ckey_matches k p v = true.
Proof.
  induction c as [| [k s] c IH]; cbn [first_ckey_match]; [discriminate |].
  destruct (ckey_matches k p v) eqn:Hk.
  - intros H. injection H as <-. exists k. cbn. auto.
  - intros H. destruct (IH H) as (k' & Hin & Hm). exists k'. cbn. auto.
Qed.

(** The spec a leaf is constrained by belongs to a rule that matches it. *)
Lemma first_ckey_match_rule (rules : list (PathAndRank * RuleSpec))
    (c : list (CKey * RuleSpec)) (p : string) (v : Tensor) (spec : RuleSpec) :
  compile_rules rules [] = Ok c ->
  first_ckey_match c p v = Some spec ->
  exists r, In (r, spec) rules /\ rule_matches r p v = true.
Proof.
  intros Hc Hm.
  destruct (first_ckey_match_Some c p v spec Hm) as (k & Hin & Hk).
  destruct (compile_rules_entries rules [] c Hc k spec Hin)
    as [[] | (r & Hr & H1 & H2)].
  exists r. split; [exact Hr |].
  now rewrite (rule_matches_ckey r k p v H1 H2).
Qed.

Lemma maybe_constrain_ok_inv (c : list (CKey * RuleSpec)) (batch : Batch)
    (p : string) (v b : Tensor) :
  fst (maybe_constrain c batch p v []) = Ok b ->
  exists spec, first_ckey_match c p v = Some spec /\ b = constrain_by spec v.
Proof.
  rewrite maybe_constrain_result. unfold constrain_by.
  destruct (first_ckey_match c p v) as [spec |]; [| discriminate].
  intros H. exists spec. split; [reflexivity |].
  destruct (is_not_UNCONSTRAINED spec); [| congruence].
  destruct (py_len batch); congruence.
Qed.

Lemma fn_ok_inv
    (rules : list (PathAndRank * RuleSpec)) (f : InputPartitionFn)
    (mesh : Mesh) (batch b' : Batch) (t t' : list Event) :
  partition_by_path_rank rules = Ok f ->
  empty mesh = false -> size mesh <> 1 ->
  f mesh batch t = (Ok b', t') ->
  tree_paths b' = tree_paths batch
  /\ exists g,
      b' = tree_mapi g "" batch
      /\ forall p v, In (p, v) (leaves_with_paths batch) ->
           exists r spec,
             In (r, spec) rules /\ rule_matches r p v = true
             /\ g p v = constrain_by spec v.
Proof.
  unfold partition_by_path_rank. intros Hf He Hs Hrun.
  destruct (compile_rules rules []) as [c | e] eqn:Hc; [| discriminate].
  injection Hf as <-. rewrite fn_in_mesh in Hrun by assumption.
  destruct (fst (scan (maybe_constrain c batch) (leaves_with_paths batch)))
    eqn:Hscan; [discriminate |].
  injection Hrun as <- _. split.
  - unfold tree_paths. apply tree_paths_tree_mapi.
  - exists (leaf_value (maybe_constrain c batch)). split; [reflexivity |].
    intros p v Hin.
    destruct (scan_fst_None_inv _ _ Hscan p v Hin) as [b Hb].
    destruct (maybe_constrain_ok_inv c batch p v b Hb) as (spec & Hm & ->).
    destruct (first_ckey_match_rule rules c p v spec Hc Hm) as (r & Hr & Hrm).
    exists r, spec. unfold leaf_value. rewrite Hb. auto.
Qed.

(** Whatever the rules are, a batch the function returns has the tree
    structure of the input, and each of its leaves is the input leaf
    constrained by the spec of a rule that matches the leaf. *)
Theorem fn_returns_leaves_constrained_by_matching_rules
    (rules : list (PathAndRank * RuleSpec)) (f : InputPartitionFn)
    (mesh : Mesh) (batch b' : Batch) (t t' : list Event) :
  partition_by_path_rank rules = Ok f ->
  empty mesh = false -> size mesh <> 1 ->
  f mesh batch t = (Ok b', t') ->
  tree_paths b' = tree_paths batch
  /\ exists g,
      b' = tree_mapi g "" batch
      /\ forall p v, In (p, v) (leaves_with_paths batch) ->
           exists r spec,
             In (r, spec) rules /\ rule_matches r p v = true
             /\ g p v = constrain_by spec v.
Proof. exact (fn_ok_inv rules f mesh batch b' t t'). Qed.

Lemma no_rules_matched_inj (p q : string) :
  no_rules_matched p = no_rules_matched q -> p = q.
Proof.
  unfold no_rules_matched. intros H.
  apply string_app_inv_head in H. now apply string_app_inv_tail in H.
Qed.

(** The [ValueError] of the last lines of [maybe_constrain] is raised only
    for the path of a leaf that no rule matches; with a rule
    [PathAndRank(None, None)] among the rules it is never raised. *)
Theorem fn_no_rules_error_only_for_unmatched_leaf
    (rules : list (PathAndRank * RuleSpec)) (f : InputPartitionFn)
    (mesh : Mesh) (batch : Batch) (t : list Event) :
  partition_by_path_rank rules = Ok f ->
  empty mesh = false -> size mesh <> 1 ->
  (forall p t',
     f mesh batch t = (Raise (ValueError (no_rules_matched p)), t') ->
     exists v, In (p, v) (leaves_with_paths batch)
               /\ forall r spec, In (r, spec) rules ->
                                 rule_matches r p v = false)
  /\ ((exists spec, In ({| path := None; rank := None |}, spec) rules) ->
      forall p t',
        f mesh batch t <> (Raise (ValueError (no_rules_matched p)), t')).
Proof.
  intros Hf He Hs.
  assert (Hraise : forall p t',
            f mesh batch t = (Raise (ValueError (no_rules_matched p)), t') ->
            exists v, In (p, v) (leaves_with_paths batch)
                      /\ forall r spec, In (r, spec) rules ->
                                        rule_matches r p v = false).
  { intros p t' Hrun. unfold partition_by_path_rank in Hf.
    destruct (compile_rules rules []) as [c | e] eqn:Hc; [| discriminate].
    injection Hf as <-. rewrite fn_in_mesh in Hrun by assumption.
    destruct (fst (scan (maybe_constrain c batch) (leaves_with_paths batch)))
      as [e |] eqn:Hscan; [| discriminate].
    injection Hrun as -> _.
    destruct (scan_fst_Some_inv _ _ _ Hscan) as (p1 & v1 & Hin & Hbad).
    rewrite maybe_constrain_result in Hbad.
    destruct (first_ckey_match c p1 v1) as [spec |] eqn:Hm.
    - exfalso. destruct (is_not_UNCONSTRAINED spec); [| discriminate].
      destruct batch as [a | items]; cbn [py_len] in Hbad; [| discriminate].
      destruct (shape a); discriminate.
    - assert (Hmsg : no_rules_matched p1 = no_rules_matched p)
        by congruence.
      apply no_rules_matched_inj in Hmsg. subst p1.
      exists v1. split; [exact Hin |].
      exact (proj1 (no_ckey_iff_no_rule rules c p v1 Hc) Hm). }
  split; [exact Hraise |].
  intros (spec & Hin) p t' Hrun.
  destruct (Hraise p t' Hrun) as (v & _ & Hno).
  specialize (Hno _ _ Hin). discriminate Hno.
Qed.




Lemma sharding_calls_app (l1 l2 : list Event) :
  sharding_calls (l1 ++ l2) = sharding_calls l1 ++ sharding_calls l2.
Proof. apply flat_map_app. Qed.

(** The one call a leaf can cause: none when no key matches or the spec is
    [UNCONSTRAINED], otherwise one, with the spec of the first key. *)
Lemma maybe_constrain_calls (c : list (CKey * RuleSpec)) (batch : Batch)
    (p : string) (v : Tensor) :
  sharding_calls (snd (maybe_constrain c batch p v []))
  = call_for (first_ckey_match c p v) v.
Proof.
  induction c as [| [[path_regex rk] spec] c IH];
    cbn [maybe_constrain first_ckey_match]; [reflexivity |].
  unfold ckey_matches. cbn [fst snd].
  destruct (rank_matches rk v); cbn [negb andb]; [| exact IH].
  assert (Hu := uniform_maybe_constrain c batch p v).
  destruct path_regex as [pat |]; cbn [regex_matches].
  - unfold bind, emit, ret. cbn [app].
    destruct (re_fullmatch pat p); cbn [negb].
    + unfold call_for. destruct (is_not_UNCONSTRAINED spec); [| reflexivity].
      unfold lift. destruct (py_len batch); reflexivity.
    + rewrite (Hu [EvFullmatch pat p]). cbn [snd].
      rewrite sharding_calls_app. exact IH.
  - unfold bind, emit, ret. cbn [negb]. unfold call_for.
    destruct (is_not_UNCONSTRAINED spec); [| reflexivity].
    unfold lift. destruct (py_len batch); reflexivity.
Qed.

Lemma sharding_calls_flat_map {X : Type} (g : X -> list Event) (l : list X) :
  sharding_calls (flat_map g l) = flat_map (fun x => sharding_calls (g x)) l.
Proof.
  induction l as [| x l IH]; [reflexivity |].
  cbn [flat_map]. now rewrite sharding_calls_app, IH.
Qed.

(** What a run that returns has done, leaf by leaf, when no two rules
    compile to the same key. *)
Lemma fn_ok_first_match
    (rules : list (PathAndRank * RuleSpec)) (cl : list (CKey * RuleSpec))
    (f : InputPartitionFn) (mesh : Mesh) (batch b' : Batch)
    (t t' : list Event) :
  compile_items rules = Ok cl ->
  NoDup (map fst cl) ->
  partition_by_path_rank rules = Ok f ->
  empty mesh = false -> size mesh <> 1 ->
  f mesh batch t = (Ok b', t') ->
  f = fn cl
  /\ fst (scan (maybe_constrain cl batch) (leaves_with_paths batch)) = None
  /\ forall p v, In (p, v) (leaves_with_paths batch) ->
       exists spec,
         first_match rules p v = Some spec
         /\ fst (maybe_constrain cl batch p v []) = Ok (constrain_by spec v).
Proof.
  intros Hcl Hnd Hf He Hs Hrun.
  unfold partition_by_path_rank in Hf.
  rewrite (compile_rules_no_collision rules [] cl Hcl Hnd) in Hf.
  cbn [app] in Hf. injection Hf as <-. split; [reflexivity |].
  rewrite fn_in_mesh in Hrun by assumption.
  destruct (fst (scan (maybe_constrain cl batch) (leaves_with_paths batch)))
    eqn:Hscan; [discriminate |].
  split; [reflexivity |]. intros p v Hin.
  destruct (scan_fst_None_inv _ _ Hscan p v Hin) as [b Hb].
  destruct (maybe_constrain_ok_inv cl batch p v b Hb) as (spec & Hm & ->).
  exists spec. split; [| exact Hb].
  now rewrite <- (first_match_compile_items rules p v cl Hcl).
Qed.

(** When no two rules compile to the same key, a batch the function
    returns is the input with every leaf constrained according to the first
    rule of the given mapping, in mapping order, that matches it (every
    leaf has one); a rule whose spec is [PartitionSpec.UNCONSTRAINED]
    leaves its leaf as it is. *)
Theorem fn_constrains_by_first_match
    (rules : list (PathAndRank * RuleSpec)) (cl : list (CKey * RuleSpec))
    (f : InputPartitionFn) (mesh : Mesh) (batch b' : Batch)
    (t t' : list Event) :
  compile_items rules = Ok cl ->
  NoDup (map fst cl) ->
  partition_by_path_rank rules = Ok f ->
  empty mesh = false -> size mesh <> 1 ->
  f mesh batch t = (Ok b', t') ->
  (forall p v, In (p, v) (leaves_with_paths batch) ->
               exists spec, first_match rules p v = Some spec)
  /\ b' = tree_mapi
            (fun p v =>
               match first_match rules p v with
               | Some spec => constrain_by spec v
               | None => v
               end) "" batch.
Proof.
  intros Hcl Hnd Hf He Hs Hrun.
  destruct (fn_ok_first_match rules cl f mesh batch b' t t'
              Hcl Hnd Hf He Hs Hrun) as (-> & Hscan & Hleaf).
  split.
  - intros p v Hin. destruct (Hleaf p v Hin) as (spec & Hm & _). eauto.
  - rewrite fn_in_mesh in Hrun by assumption. rewrite Hscan in Hrun.
    injection Hrun as <- _.
    apply tree_mapi_ext. intros p v Hin. unfold leaf_value.
    destruct (Hleaf p v Hin) as (spec & -> & ->). reflexivity.
Qed.

(** When no two rules compile to the same key, a run that returns has
    called [with_sharding_constraint] once for each leaf whose first
    matching rule does not map to [UNCONSTRAINED], in the order of the
    leaves and with that rule's spec, and for no other leaf. *)
Theorem fn_constrains_each_leaf_at_most_once
    (rules : list (PathAndRank * RuleSpec)) (cl : list (CKey * RuleSpec))
    (f : InputPartitionFn) (mesh : Mesh) (batch b' : Batch)
    (t t' : list Event) :
  compile_items rules = Ok cl ->
  NoDup (map fst cl) ->
  partition_by_path_rank rules = Ok f ->
  empty mesh = false -> size mesh <> 1 ->
  f mesh batch t = (Ok b', t') ->
  sharding_calls t'
  = sharding_calls t
    ++ flat_map
         (fun pv => call_for (first_match rules (fst pv) (snd pv)) (snd pv))
         (leaves_with_paths batch).
Proof.
  intros Hcl Hnd Hf He Hs Hrun.
  destruct (fn_ok_first_match rules cl f mesh batch b' t t'
              Hcl Hnd Hf He Hs Hrun) as (-> & Hscan & _).
  rewrite fn_in_mesh in Hrun by assumption. rewrite Hscan in Hrun.
  injection Hrun as _ <-.
  rewrite sharding_calls_app, (scan_snd_ok _ _ Hscan), sharding_calls_flat_map.
  f_equal. apply flat_map_ext. intros [p v].
  cbn [fst snd]. rewrite maybe_constrain_calls.
  now rewrite (first_match_compile_items rules p v cl Hcl).
Qed.

(** A batch that is one 0-d tensor, not a dict: when the rules that match
    it all replicate ([None] or the empty [PartitionSpec()], the specs a
    0-d value can take), the tensor is constrained and then
    [len(input_batch)], an argument of the log call, raises
    [TypeError]. *)
Theorem fn_raises_TypeError_on_scalar_batch
    (rules : list (PathAndRank * RuleSpec)) (f : InputPartitionFn)
    (mesh : Mesh) (v : Tensor) (t : list Event) :
  partition_by_path_rank rules = Ok f ->
  empty mesh = false -> size mesh <> 1 ->
  shape v = [] ->
  (exists r spec, In (r, spec) rules /\ rule_matches r "" v = true) ->
  (forall r spec, In (r, spec) rules -> rule_matches r "" v = true ->
                  spec = RNone \/ spec = RSpec []) ->
  exists t' r spec,
    f mesh (Leaf v) t = (Raise (TypeError "len() of unsized object"), t')
    /\ In (r, spec) rules /\ rule_matches r "" v = true
    /\ sharding_calls (snd (f mesh (Leaf v) [])) = [(v, spec)].
Proof.
  unfold partition_by_path_rank. intros Hf He Hs Hv (r0 & s0 & Hin0 & Hm0) Hall.
  destruct (compile_rules rules []) as [c | e] eqn:Hc; [| discriminate].
  injection Hf as <-.
  destruct (first_ckey_match c "" v) as [spec |] eqn:Hm.
  2: { pose proof (proj1 (no_ckey_iff_no_rule rules c "" v Hc) Hm) as Hno.
       rewrite (Hno r0 s0 Hin0) in Hm0. discriminate. }
  destruct (first_ckey_match_rule rules c "" v spec Hc Hm) as (r & Hr & Hrm).
  assert (Hcons : is_not_UNCONSTRAINED spec = true)
    by (destruct (Hall r spec Hr Hrm) as [-> | ->]; reflexivity).
  assert (Hres := maybe_constrain_result c (Leaf v) "" v).
  assert (Hcalls := maybe_constrain_calls c (Leaf v) "" v).
  rewrite Hm in Hres, Hcalls. unfold call_for in Hcalls.
  rewrite Hcons in Hres, Hcalls. cbn [py_len] in Hres. rewrite Hv in Hres.
  exists (t ++ snd (maybe_constrain c (Leaf v) "" v [])), r, spec.
  rewrite !fn_in_mesh by assumption.
  cbn [leaves_with_paths leaves_from scan fst snd].
  destruct (maybe_constrain c (Leaf v) "" v []) as [[b | e] evs];
    cbn [fst snd] in *; [discriminate |].
  injection Hres as ->. cbn [app].
  split; [reflexivity |]. split; [exact Hr |]. split; [exact Hrm | exact Hcalls].
Qed.

End Rules.

Import Examples.

Lemma fn_returns_leaves_constrained_by_matching_rules_witness :
  tree_paths
    (Dict [("a"%string,
            Leaf (with_sharding_constraint (JaxRuntime := recording_jax)
                    (vec 3) (RSpec data_spec)))])
  = tree_paths (Dict [("a"%string, Leaf (vec 3))])
  /\ exists g,
      Dict [("a"%string,
             Leaf (with_sharding_constraint (JaxRuntime := recording_jax)
                     (vec 3) (RSpec data_spec)))]
      = tree_mapi g "" (Dict [("a"%string, Leaf (vec 3))])
      /\ forall p v, In (p, v) (leaves_with_paths (Dict [("a"%string, Leaf (vec 3))])) ->
           exists r spec,
             In (r, spec)
               [({| path := Some (PStr ".*"); rank := Some 1 |}, RSpec data_spec)]
             /\ rule_matches (J := recording_jax) (R := literal_re) r p v = true
             /\ g p v = constrain_by spec v.
Proof.
  apply (fn_returns_leaves_constrained_by_matching_rules
           (J := recording_jax) (R := literal_re)
           [({| path := Some (PStr ".*"); rank := Some 1 |}, RSpec data_spec)]
           (fn (compiled_of [((Some ".*"%string, Some 1), RSpec data_spec)]))
           mesh2 (Dict [("a"%string, Leaf (vec 3))]) _ []
           [EvFullmatch (lit ".*") "a";
            EvShardingConstraint (vec 3) (RSpec data_spec);
            EvLogFirstN "Constraining input_batch[%s] with %s." 1 "a"
              (RSpec data_spec)]).
  - reflexivity.
  - reflexivity.
  - cbn. discriminate.
  - reflexivity.
Defined.

Lemma fn_no_rules_error_only_for_unmatched_leaf_witness :
  (forall p t',
     fn (J := recording_jax) (R := literal_re)
       (compiled_of [((Some "a"%string, Some 2), RUnconstrained);
                     ((None, None), RSpec data_spec)])
       mesh2 (Dict [("a"%string, Leaf (vec 3))]) []
     = (Raise (ValueError (no_rules_matched p)), t') ->
     exists v, In (p, v) (leaves_with_paths (Dict [("a"%string, Leaf (vec 3))]))
               /\ forall r spec,
                    In (r, spec)
                      [({| path := Some (PStr "a"); rank := Some 2 |},
                        RUnconstrained);
                       ({| path := None; rank := None |}, RSpec data_spec)] ->
                    rule_matches (J := recording_jax) (R := literal_re) r p v
                    = false)
  /\ ((exists spec,
         In (A := PathAndRank (R := literal_re) * RuleSpec)
           ({| path := None; rank := None |}, spec)
           [({| path := Some (PStr "a"); rank := Some 2 |}, RUnconstrained);
            ({| path := None; rank := None |}, RSpec data_spec)]) ->
      forall p t',
        fn (J := recording_jax) (R := literal_re)
          (compiled_of [((Some "a"%string, Some 2), RUnconstrained);
                        ((None, None), RSpec data_spec)])
          mesh2 (Dict [("a"%string, Leaf (vec 3))]) []
        <> (Raise (ValueError (no_rules_matched p)), t')).
Proof.
  apply (fn_no_rules_error_only_for_unmatched_leaf
           (J := recording_jax) (R := literal_re)
           [({| path := Some (PStr "a"); rank := Some 2 |}, RUnconstrained);
            ({| path := None; rank := None |}, RSpec data_spec)]
           (fn (compiled_of [((Some "a"%string, Some 2), RUnconstrained);
                             ((None, None), RSpec data_spec)]))
           mesh2 (Dict [("a"%string, Leaf (vec 3))]) []).
  - reflexivity.
  - reflexivity.
  - cbn. discriminate.
Defined.

Lemma fn_constrains_by_first_match_witness :
  (forall p v,
     In (p, v)
       (leaves_with_paths
          (Dict [("a"%string, Leaf (vec 3)); ("b"%string, Leaf (vec 4))])) ->
     exists spec,
       first_match (J := recording_jax) (R := literal_re)
         [({| path := Some (PStr "a"); rank := None |}, RUnconstrained);
          ({| path := None; rank := Some 1 |}, RSpec data_spec)] p v
       = Some spec)
  /\ Dict [("a"%string, Leaf (vec 3));
           ("b"%string,
            Leaf (with_sharding_constraint (JaxRuntime := recording_jax)
                    (vec 4) (RSpec data_spec)))]
     = tree_mapi
         (fun p v =>
            match first_match (J := recording_jax) (R := literal_re)
                    [({| path := Some (PStr "a"); rank := None |},
                      RUnconstrained);
                     ({| path := None; rank := Some 1 |}, RSpec data_spec)]
                    p v with
            | Some spec => constrain_by spec v
            | None => v
            end) ""
         (Dict [("a"%string, Leaf (vec 3)); ("b"%string, Leaf (vec 4))]).
Proof.
  apply (fn_constrains_by_first_match
           (J := recording_jax) (R := literal_re)
           [({| path := Some (PStr "a"); rank := None |}, RUnconstrained);
            ({| path := None; rank := Some 1 |}, RSpec data_spec)]
           (compiled_of [((Some "a"%string, None), RUnconstrained);
                         ((None, Some 1), RSpec data_spec)])
           (fn (compiled_of [((Some "a"%string, None), RUnconstrained);
                             ((None, Some 1), RSpec data_spec)]))
           mesh2
           (Dict [("a"%string, Leaf (vec 3)); ("b"%string, Leaf (vec 4))]) _
           []
           [EvFullmatch (lit "a") "a"; EvFullmatch (lit "a") "b";
            EvShardingConstraint (vec 4) (RSpec data_spec);
            EvLogFirstN "Constraining input_batch[%s] with %s." 2 "b"
              (RSpec data_spec)]).
  - reflexivity.
  - repeat constructor; cbn; intuition discriminate.
  - reflexivity.
  - reflexivity.
  - cbn. discriminate.
  - reflexivity.
Defined.

Lemma fn_constrains_each_leaf_at_most_once_witness :
  sharding_calls
    [EvFullmatch (lit "a") "a"; EvFullmatch (lit "a") "b";
     EvShardingConstraint (vec 4) (RSpec data_spec);
     EvLogFirstN "Constraining input_batch[%s] with %s." 2 "b"
       (RSpec data_spec)]
  = sharding_calls (J := recording_jax) (R := literal_re) []
    ++ flat_map
         (fun pv =>
            call_for
              (first_match (J := recording_jax) (R := literal_re)
                 [({| path := Some (PStr "a"); rank := None |}, RUnconstrained);
                  ({| path := None; rank := Some 1 |}, RSpec data_spec)]
                 (fst pv) (snd pv)) (snd pv))
         (leaves_with_paths
            (Dict [("a"%string, Leaf (vec 3)); ("b"%string, Leaf (vec 4))])).
Proof.
  apply (fn_constrains_each_leaf_at_most_once
           (J := recording_jax) (R := literal_re)
           [({| path := Some (PStr "a"); rank := None |}, RUnconstrained);
            ({| path := None; rank := Some 1 |}, RSpec data_spec)]
           (compiled_of [((Some "a"%string, None), RUnconstrained);
                         ((None, Some 1), RSpec data_spec)])
           (fn (compiled_of [((Some "a"%string, None), RUnconstrained);
                             ((None, Some 1), RSpec data_spec)]))
           mesh2
           (Dict [("a"%string, Leaf (vec 3)); ("b"%string, Leaf (vec 4))])
           (Dict [("a"%string, Leaf (vec 3));
                  ("b"%string,
                   Leaf (with_sharding_constraint (JaxRuntime := recording_jax)
                           (vec 4) (RSpec data_spec)))])
           []).
  - reflexivity.
  - repeat constructor; cbn; intuition discriminate.
  - reflexivity.
  - reflexivity.
  - cbn. discriminate.
  - reflexivity.
Defined.

Lemma fn_raises_TypeError_on_scalar_batch_witness :
  exists t' r spec,
    fn (J := recording_jax) (R := literal_re)
      (compiled_of [((None, Some 0), RSpec [])]) mesh2
      (Leaf {| dims := []; constraints := [] |}) []
    = (Raise (TypeError "len() of unsized object"), t')
    /\ In (r, spec) [({| path := None; rank := Some 0 |}, RSpec [])]
    /\ rule_matches (J := recording_jax) (R := literal_re) r ""
         {| dims := []; constraints := [] |} = true
    /\ sharding_calls
         (snd (fn (J := recording_jax) (R := literal_re)
                 (compiled_of [((None, Some 0), RSpec [])]) mesh2
                 (Leaf {| dims := []; constraints := [] |}) []))
       = [({| dims := []; constraints := [] |}, spec)].
Proof.
  apply (fn_raises_TypeError_on_scalar_batch
           (J := recording_jax) (R := literal_re)
           [({| path := None; rank := Some 0 |}, RSpec [])]
           (fn (compiled_of [((None, Some 0), RSpec [])])) mesh2
           {| dims := []; constraints := [] |} []).
  - reflexivity.
  - reflexivity.
  - cbn. discriminate.
  - reflexivity.
  - exists {| path := None; rank := Some 0 |}, (RSpec []). split; [now left |].
    reflexivity.
  - intros r spec [H | []] _. injection H as <- <-. now right.
Defined.

End PartitionMore.

(** ** [class Input]: the [partition_spec] property and the edges of
    [dispatch_global_batch] *)

Module InputMore.
Import InputBase PyFacts TreeFacts InputFacts.

Section InputClass.
Context {J : JaxRuntime} {R : ReEngine} {U : AxlearnUtils}.

(** An [Input] built by [__init__] never lacks the [input_dispatcher]
    attribute where its methods read it: the [partition_spec] property
    returns the dispatcher's spec when a dispatcher is configured and
    [input_partition_spec()] otherwise, whatever [cfg.partition_spec] is,
    while [dispatch_global_batch] constrains with [cfg.partition_spec]
    whenever that is a non-empty spec. *)
Theorem partition_spec_property_ignores_cfg_without_dispatcher (cfg : Config) :
  Input_partition_spec (Input_init cfg)
  = Ok match cfg_input_dispatcher cfg with
       | Some dcfg =>
           dispatcher_partition_spec
             (instantiate_dispatcher dcfg (partition_spec cfg))
       | None => input_partition_spec
       end
  /\ (forall e es, partition_spec cfg = Some (e :: es) ->
                   _partition_spec (Input_init cfg) = e :: es)
  /\ (partition_spec cfg = None \/ partition_spec cfg = Some [] ->
      _partition_spec (Input_init cfg) = input_partition_spec).
Proof.
  split; [| split].
  - unfold Input_partition_spec. rewrite has_input_dispatcher_init.
    unfold get_input_dispatcher, Input_init. cbn [input_dispatcher].
    now destruct (cfg_input_dispatcher cfg).
  - intros e es H. unfold Input_init, partition_spec_or_default.
    cbn [_partition_spec]. now rewrite H.
  - intros [H | H]; unfold Input_init, partition_spec_or_default;
      cbn [_partition_spec]; now rewrite H.
Qed.

Lemma shape_lookup_missing (sh : list (string * Z)) (a : string) :
  ~ In a (map fst sh) -> shape_lookup sh a = Raise (KeyError a).
Proof.
  induction sh as [| [a0 n] sh IH]; cbn [shape_lookup map fst In]; intros H.
  - reflexivity.
  - destruct (String.eqb a0 a) eqn:Ha.
    + apply String.eqb_eq in Ha. tauto.
    + apply IH. tauto.
Qed.

Lemma shape_lookup_present (sh : list (string * Z)) (a : string) :
  In a (map fst sh) -> exists n, shape_lookup sh a = Ok n.
Proof.
  induction sh as [| [a0 n] sh IH]; cbn [shape_lookup map fst In]; intros H.
  - destruct H.
  - destruct (String.eqb a0 a) eqn:Ha; [eauto |].
    apply IH. destruct H as [H | H]; [| exact H].
    apply String.eqb_neq in Ha. contradiction.
Qed.

(** [math.prod] over named axes raises the [KeyError] of the first axis
    that the mesh does not have. *)
Lemma prod_axes_missing (mesh : Mesh) (axes : list string) :
  (exists a, In a axes /\ ~ In a (map fst (mesh_shape mesh))) ->
  exists a, In a axes /\ ~ In a (map fst (mesh_shape mesh))
            /\ prod_axes mesh (map Some axes) = Raise (KeyError a).
Proof.
  induction axes as [| a0 axes IH]; intros (a & Hin & Hmiss); [destruct Hin |].
  cbn [map prod_axes].
  destruct (in_dec string_dec a0 (map fst (mesh_shape mesh))) as [Hp | Hm].
  - destruct (shape_lookup_present _ _ Hp) as [n ->].
    destruct IH as (a' & Hin' & Hmiss' & ->).
    { destruct Hin as [<- | Hin]; [contradiction | eauto]. }
    exists a'. cbn. auto.
  - rewrite (shape_lookup_missing _ _ Hm). exists a0. cbn. auto.
Qed.

Lemma constrain_batch_axis_mesh_error (self : Input) (mesh : Mesh)
    (p : string) (v : Tensor) (t : list Event) (entry : SpecEntry) (e : Exn) :
  spec_getitem0 (_partition_spec self) = Ok entry ->
  prod_axes mesh (entry_leaves entry) = Raise e ->
  constrain_batch_axis self mesh p v t = (Raise e, t).
Proof.
  intros He Hp. unfold constrain_batch_axis.
  now rewrite He, bind_lift_ok, Hp, bind_lift_raise.
Qed.

Lemma constrain_batch_mesh_error (self : Input) (mesh : Mesh) (batch : Batch)
    (t : list Event) (entry : SpecEntry) (e : Exn) :
  spec_getitem0 (_partition_spec self) = Ok entry ->
  prod_axes mesh (entry_leaves entry) = Raise e ->
  leaves_with_paths batch <> [] ->
  constrain_batch self mesh batch t = (Raise e, t).
Proof.
  intros He Hp Hne. unfold constrain_batch, tree_paths.
  rewrite (tree_map2_scan _ (uniform_constrain_batch_axis self mesh)).
  fold (leaves_with_paths batch).
  destruct (leaves_with_paths batch) as [| [p v] l]; [congruence |].
  cbn [scan].
  rewrite (constrain_batch_axis_mesh_error self mesh p v [] entry e He Hp).
  cbn. now rewrite app_nil_r.
Qed.

(** A batch axis of the partition spec that the mesh does not have (as
    every named axis is outside a mesh context): [dispatch_global_batch]
    raises the [KeyError] of such an axis at the first leaf it constrains.
    With a dispatcher that is before the dispatcher is called; without one
    it is after [dispatch_input_batch] has been called. *)
Theorem dispatch_raises_KeyError_for_missing_mesh_axis (cfg : Config)
    (mesh : Mesh) (b : Batch) (t : list Event) (axes : list string)
    (entry : SpecEntry) :
  spec_getitem0 (_partition_spec (Input_init cfg)) = Ok entry ->
  entry_leaves entry = map Some axes ->
  (exists a, In a axes /\ ~ In a (map fst (mesh_shape mesh))) ->
  exists a,
    In a axes /\ ~ In a (map fst (mesh_shape mesh))
    /\ match cfg_input_dispatcher cfg with
       | Some _ =>
           leaves_with_paths b <> [] ->
           dispatch_global_batch (Input_init cfg) mesh b t
           = (Raise (KeyError a), t)
       | None =>
           leaves_with_paths (dispatch_input_batch b entry) <> [] ->
           dispatch_global_batch (Input_init cfg) mesh b t
           = (Raise (KeyError a), t ++ [EvDispatchInputBatch b entry])
       end.
Proof.
  intros He Hl Hmiss.
  destruct (prod_axes_missing mesh axes Hmiss) as (a & Hin & Hm & Hp).
  rewrite <- Hl in Hp.
  exists a. split; [exact Hin |]. split; [exact Hm |].
  unfold dispatch_global_batch. rewrite has_input_dispatcher_init.
  destruct (cfg_input_dispatcher cfg) as [dcfg |] eqn:Hd; intros Hne.
  - assert (Hget : get_input_dispatcher (Input_init cfg)
                   = Ok (instantiate_dispatcher dcfg (partition_spec cfg))).
    { unfold get_input_dispatcher, Input_init. cbn [input_dispatcher].
      now rewrite Hd. }
    rewrite Hget. unfold bind at 1. rewrite bind_lift_ok. unfold bind at 1.
    now rewrite (constrain_batch_mesh_error _ mesh b t entry _ He Hp Hne).
  - rewrite He.
    erewrite bind_run; [| rewrite bind_lift_ok, bind_emit; reflexivity].
    unfold bind.
    now rewrite (constrain_batch_mesh_error _ mesh _ _ entry _ He Hp Hne).
Qed.

Lemma constrain_batch_axis_scalar (self : Input) (mesh : Mesh) (p : string)
    (v : Tensor) (t : list Event) (entry : SpecEntry) (parts : Z) :
  spec_getitem0 (_partition_spec self) = Ok entry ->
  prod_axes mesh (entry_leaves entry) = Ok parts ->
  shape v = [] ->
  constrain_batch_axis self mesh p v t = (Raise IndexError, t).
Proof.
  intros He Hp Hv. unfold constrain_batch_axis, shape0.
  now rewrite He, bind_lift_ok, Hp, bind_lift_ok, Hv, bind_lift_raise.
Qed.

(** A 0-d leaf has no batch dimension: with a dispatcher configured, a
    physical batch that holds one makes [dispatch_global_batch] raise
    [IndexError] ([value.shape[0]]), and the dispatcher is not called. *)
Theorem dispatch_raises_IndexError_on_scalar_leaf (cfg : Config)
    (dcfg : DispatcherConfig) (mesh : Mesh) (b : Batch) (t : list Event)
    (entry : SpecEntry) (parts : Z) (p : string) (v : Tensor) :
  cfg_input_dispatcher cfg = Some dcfg ->
  spec_getitem0 (_partition_spec (Input_init cfg)) = Ok entry ->
  prod_axes mesh (entry_leaves entry) = Ok parts ->
  parts <> 0 ->
  In (p, v) (leaves_with_paths b) ->
  shape v = [] ->
  exists evs,
    dispatch_global_batch (Input_init cfg) mesh b t = (Raise IndexError, t ++ evs)
    /\ forall x, ~ In (EvPhysicalToLogical x) evs.
Proof.
  intros Hd He Hp Hnz Hin Hv.
  destruct (scan_some_bad (constrain_batch_axis (Input_init cfg) mesh)
              (fun _ _ => IndexError) (leaves_with_paths b))
    as (p1 & v1 & _ & _ & Hscan).
  - intros p' v' _. destruct (shape v') as [| d rest] eqn:Hv'.
    + right.
      now rewrite (constrain_batch_axis_scalar _ mesh p' v' [] entry parts).
    + left. rewrite (constrain_batch_axis_run _ mesh p' v' [] entry parts);
        [cbn; eauto | auto | auto | auto | congruence].
  - exists p, v. split; [exact Hin |].
    now rewrite (constrain_batch_axis_scalar _ mesh p v [] entry parts).
  - assert (Hrun : constrain_batch (Input_init cfg) mesh b t
                   = (Raise IndexError,
                      t ++ snd (scan (constrain_batch_axis (Input_init cfg) mesh)
                                  (leaves_with_paths b)))).
    { unfold constrain_batch, tree_paths.
      rewrite (tree_map2_scan _ (uniform_constrain_batch_axis _ mesh)).
      fold (leaves_with_paths b). now rewrite Hscan. }
    exists (snd (scan (constrain_batch_axis (Input_init cfg) mesh)
                   (leaves_with_paths b))).
    split.
    + unfold dispatch_global_batch. rewrite has_input_dispatcher_init, Hd.
      assert (Hget : get_input_dispatcher (Input_init cfg)
                     = Ok (instantiate_dispatcher dcfg (partition_spec cfg))).
      { unfold get_input_dispatcher, Input_init. cbn [input_dispatcher].
        now rewrite Hd. }
      rewrite Hget. unfold bind at 1. rewrite bind_lift_ok. unfold bind at 1.
      now rewrite Hrun.
    + intros x Hx.
      assert (Hev : forall l,
                forall x, ~ In (EvPhysicalToLogical x)
                            (snd (scan (constrain_batch_axis (Input_init cfg) mesh) l))).
      { clear. intros l. induction l as [| [p v] l IH]; intros x; cbn [scan].
        - intros [].
        - unfold constrain_batch_axis at 1.
          destruct (spec_getitem0 (_partition_spec (Input_init cfg))) as [en | e];
            [| cbn; tauto].
          rewrite bind_lift_ok.
          destruct (prod_axes mesh (entry_leaves en)) as [parts | e];
            [| cbn; tauto].
          rewrite bind_lift_ok. unfold shape0.
          destruct (shape v) as [| d rest]; [cbn; tauto |].
          rewrite bind_lift_ok. unfold py_mod.
          destruct (parts =? 0); [cbn; tauto |].
          rewrite bind_lift_ok.
          destruct (negb (d mod parts =? 0)); cbn; rewrite ?in_app_iff;
            cbn; intros H; decompose [or] H; try discriminate;
            try contradiction; eapply IH; eauto. }
      exact (Hev _ x Hx).
Qed.

Lemma sharding_calls_batch_axis (self : Input) (parts : Z) (p : string)
    (v : Tensor) :
  shape v <> [] ->
  sharding_calls (batch_axis_events self parts p v)
  = [(v, RSpec (_partition_spec self))]
  /\ warnings (batch_axis_events self parts p v)
     = (if nondivisible parts (p, v) then 1 else 0)%nat.
Proof.
  intros Hv. unfold batch_axis_events, nondivisible. cbn [snd].
  destruct (shape v) as [| d rest]; [congruence |].
  now destruct (negb (d mod parts =? 0)).
Qed.

Lemma warnings_app (l1 l2 : list Event) :
  warnings (l1 ++ l2) = (warnings l1 + warnings l2)%nat.
Proof. unfold warnings. now rewrite filter_app, length_app. Qed.

Lemma sharding_calls_concat (l1 l2 : list Event) :
  sharding_calls (l1 ++ l2) = sharding_calls l1 ++ sharding_calls l2.
Proof. apply flat_map_app. Qed.

(** One pass of [constrain_batch_axis] over a batch: one call per leaf, in
    leaf order, and one warning per leaf that does not divide. *)
Lemma constrain_events_counts (self : Input) (parts : Z) (batch : Batch) :
  all_batched batch ->
  sharding_calls (constrain_events self parts batch)
  = map (fun pv => (snd pv, RSpec (_partition_spec self)))
      (leaves_with_paths batch)
  /\ warnings (constrain_events self parts batch)
     = List.length (filter (nondivisible parts) (leaves_with_paths batch)).
Proof.
  unfold all_batched, constrain_events.
  induction (leaves_with_paths batch) as [| [p v] l IH]; intros Hall.
  - now split.
  - inversion Hall as [| ? ? Hv Hl]; subst. cbn [snd] in Hv.
    destruct (IH Hl) as [IH1 IH2].
    destruct (sharding_calls_batch_axis self parts p v Hv) as [H1 H2].
    cbn [flat_map map filter fst snd].
    rewrite sharding_calls_concat, warnings_app, H1, H2, IH1, IH2.
    split; [reflexivity |].
    now destruct (nondivisible parts (p, v)).
Qed.

(** With a dispatcher configured, [dispatch_global_batch] calls
    [with_sharding_constraint] once for every leaf of the physical batch
    and then once for every leaf of the logical batch, each time with
    [self._partition_spec], and logs one warning for every leaf of either
    batch whose 0th dimension the batch partitions do not divide. *)
Theorem dispatch_constrains_every_leaf_once_per_pass (cfg : Config)
    (dcfg : DispatcherConfig) (mesh : Mesh) (b : Batch) (t : list Event)
    (entry : SpecEntry) (parts : Z) :
  cfg_input_dispatcher cfg = Some dcfg ->
  spec_getitem0 (_partition_spec (Input_init cfg)) = Ok entry ->
  prod_axes mesh (entry_leaves entry) = Ok parts ->
  parts <> 0 ->
  all_batched b ->
  all_batched (physical_to_logical_batch
                 (instantiate_dispatcher dcfg (partition_spec cfg))
                 (constrained (Input_init cfg) b)) ->
  exists evs,
    dispatch_global_batch (Input_init cfg) mesh b t
    = apply_partitioner (Input_init cfg) mesh
        (constrained (Input_init cfg)
           (physical_to_logical_batch
              (instantiate_dispatcher dcfg (partition_spec cfg))
              (constrained (Input_init cfg) b)))
        (t ++ evs)
    /\ sharding_calls evs
       = map (fun pv => (snd pv, RSpec (_partition_spec (Input_init cfg))))
           (leaves_with_paths b
            ++ leaves_with_paths
                 (physical_to_logical_batch
                    (instantiate_dispatcher dcfg (partition_spec cfg))
                    (constrained (Input_init cfg) b)))
    /\ warnings evs
       = (List.length (filter (nondivisible parts) (leaves_with_paths b))
          + List.length
              (filter (nondivisible parts)
                 (leaves_with_paths
                    (physical_to_logical_batch
                       (instantiate_dispatcher dcfg (partition_spec cfg))
                       (constrained (Input_init cfg) b)))))%nat.
Proof.
  intros Hd He Hp Hnz Hb Hl.
  rewrite (dispatch_run_dispatcher cfg dcfg mesh b t entry parts)
    by assumption.
  eexists. split; [reflexivity |].
  destruct (constrain_events_counts (Input_init cfg) parts b Hb) as [H1 H2].
  destruct (constrain_events_counts (Input_init cfg) parts _ Hl) as [H3 H4].
  rewrite !sharding_calls_concat, !warnings_app, H1, H2, H3, H4, map_app.
  cbn. split; [reflexivity | lia].
Qed.

Lemma nondivisible_one (pv : string * Tensor) : nondivisible 1 pv = false.
Proof.
  unfold nondivisible. destruct (shape (snd pv)) as [| d rest]; [reflexivity |].
  now rewrite Z.mod_1_r.
Qed.

Lemma filter_nondivisible_one (l : list (string * Tensor)) :
  filter (nondivisible 1) l = [].
Proof.
  induction l as [| pv l IH]; [reflexivity |].
  cbn [filter]. now rewrite nondivisible_one.
Qed.

(** When the first entry of the partition spec is [None], the batch is not
    partitioned: no mesh axis is looked up, so any mesh will do, and no
    warning is logged, whatever the batch dimensions are. *)
Theorem dispatch_never_warns_for_unpartitioned_batch_axis (cfg : Config)
    (mesh : Mesh) (b : Batch) (t : list Event) :
  spec_getitem0 (_partition_spec (Input_init cfg)) = Ok ENone ->
  cfg_input_dispatcher cfg = None ->
  all_batched (dispatch_input_batch b ENone) ->
  exists evs,
    dispatch_global_batch (Input_init cfg) mesh b t
    = apply_partitioner (Input_init cfg) mesh
        (constrained (Input_init cfg) (dispatch_input_batch b ENone))
        (t ++ evs)
    /\ warnings evs = 0%nat.
Proof.
  intros He Hd Hl.
  rewrite (dispatch_run_plain cfg mesh b t ENone 1) by (auto; discriminate).
  eexists. split; [reflexivity |].
  destruct (constrain_events_counts (Input_init cfg) 1 _ Hl) as [_ H].
  rewrite warnings_app, H, filter_nondivisible_one. reflexivity.
Qed.

End InputClass.

Import Examples.
#[local] Existing Instances recording_jax literal_re toy_utils.

Lemma dispatch_raises_KeyError_for_missing_mesh_axis_witness :
  exists a,
    In a ["data"%string]
    /\ ~ In a (map fst (mesh_shape {| empty := true; size := 0; mesh_shape := [] |}))
    /\ (leaves_with_paths (Dict [("a"%string, Leaf (vec 4))]) <> [] ->
        dispatch_global_batch (Input_init cfg_dispatching)
          {| empty := true; size := 0; mesh_shape := [] |}
          (Dict [("a"%string, Leaf (vec 4))]) []
        = (Raise (KeyError a), [])).
Proof.
  apply (dispatch_raises_KeyError_for_missing_mesh_axis cfg_dispatching
           {| empty := true; size := 0; mesh_shape := [] |}
           (Dict [("a"%string, Leaf (vec 4))]) [] ["data"%string] (EAxis "data")).
  - reflexivity.
  - reflexivity.
  - exists "data"%string. split; [now left | intros []].
Defined.

Lemma dispatch_raises_IndexError_on_scalar_leaf_witness :
  exists evs,
    dispatch_global_batch (Input_init cfg_dispatching) mesh2
      (Dict [("a"%string, Leaf (vec 4));
             ("step"%string, Leaf {| dims := []; constraints := [] |})]) []
    = (Raise IndexError, [] ++ evs)
    /\ forall x, ~ In (EvPhysicalToLogical x) evs.
Proof.
  apply (dispatch_raises_IndexError_on_scalar_leaf cfg_dispatching tt mesh2
           (Dict [("a"%string, Leaf (vec 4));
                  ("step"%string, Leaf {| dims := []; constraints := [] |})])
           [] (EAxis "data") 2 "step"
           {| dims := []; constraints := [] |}); try reflexivity.
  - discriminate.
  - right. left. reflexivity.
Defined.

Lemma dispatch_constrains_every_leaf_once_per_pass_witness :
  exists evs,
    dispatch_global_batch (Input_init cfg_dispatching) mesh2
      (Dict [("a"%string, Leaf (vec 3)); ("b"%string, Leaf (vec 4))]) []
    = apply_partitioner (Input_init cfg_dispatching) mesh2
        (constrained (Input_init cfg_dispatching)
           (physical_to_logical_batch identity_dispatcher
              (constrained (Input_init cfg_dispatching)
                 (Dict [("a"%string, Leaf (vec 3)); ("b"%string, Leaf (vec 4))]))))
        ([] ++ evs)
    /\ sharding_calls evs
       = map (fun pv => (snd pv, RSpec (_partition_spec (Input_init cfg_dispatching))))
           (leaves_with_paths
              (Dict [("a"%string, Leaf (vec 3)); ("b"%string, Leaf (vec 4))])
            ++ leaves_with_paths
                 (physical_to_logical_batch identity_dispatcher
                    (constrained (Input_init cfg_dispatching)
                       (Dict [("a"%string, Leaf (vec 3));
                              ("b"%string, Leaf (vec 4))]))))
    /\ warnings evs
       = (List.length
            (filter (nondivisible 2)
               (leaves_with_paths
                  (Dict [("a"%string, Leaf (vec 3)); ("b"%string, Leaf (vec 4))])))
          + List.length
              (filter (nondivisible 2)
                 (leaves_with_paths
                    (physical_to_logical_batch identity_dispatcher
                       (constrained (Input_init cfg_dispatching)
                          (Dict [("a"%string, Leaf (vec 3));
                                 ("b"%string, Leaf (vec 4))]))))))%nat.
Proof.
  apply (dispatch_constrains_every_leaf_once_per_pass cfg_dispatching tt mesh2
           (Dict [("a"%string, Leaf (vec 3)); ("b"%string, Leaf (vec 4))])
           [] (EAxis "data") 2); try reflexivity.
  - discriminate.
  - repeat constructor; discriminate.
  - repeat constructor; discriminate.
Defined.

Lemma dispatch_never_warns_for_unpartitioned_batch_axis_witness :
  exists evs,
    dispatch_global_batch
      (Input_init {| partition_spec := Some [ENone];
                     cfg_input_dispatcher := None;
                     cfg_input_partitioner := None |})
      {| empty := true; size := 0; mesh_shape := [] |}
      (Dict [("a"%string, Leaf (vec 3))]) []
    = apply_partitioner
        (Input_init {| partition_spec := Some [ENone];
                       cfg_input_dispatcher := None;
                       cfg_input_partitioner := None |})
        {| empty := true; size := 0; mesh_shape := [] |}
        (constrained
           (Input_init {| partition_spec := Some [ENone];
                          cfg_input_dispatcher := None;
                          cfg_input_partitioner := None |})
           (dispatch_input_batch (Dict [("a"%string, Leaf (vec 3))]) ENone))
        ([] ++ evs)
    /\ warnings evs = 0%nat.
Proof.
  apply (dispatch_never_warns_for_unpartitioned_batch_axis
           {| partition_spec := Some [ENone];
              cfg_input_dispatcher := None;
              cfg_input_partitioner := None |}
           {| empty := true; size := 0; mesh_shape := [] |}
           (Dict [("a"%string, Leaf (vec 3))]) []).
  - reflexivity.
  - reflexivity.
  - repeat constructor; discriminate.
Defined.

End InputMore.

(** ** The benchmark: edges of [_time_call] and the cost of a run *)

Module BenchmarkMore.
Import Benchmark PyFacts BenchmarkFacts.

Section Bench.
Context {N : Numerics} {W : World}.

(** With [num_iters <= 0] the loop body never runs: [fn] is called once,
    for the warmup, and the clock is read twice in a row.  For
    [num_iters = 0] the division then raises [ZeroDivisionError]; for a
    negative [num_iters] the time between the two readings is divided by
    it. *)
Theorem _time_call_without_timed_calls (fn : Callable) (n : Z)
    (t : list Event) :
  n <= 0 ->
  _time_call fn n t
  = ((if n =? 0 then Raise ZeroDivisionError
      else Ok (float_div_int
                 (float_sub
                    (perf_counter_value (t ++ one_call fn ++ [EvPerfCounter]))
                    (perf_counter_value (t ++ one_call fn)))
                 n)),
     t ++ one_call fn ++ [EvPerfCounter; EvPerfCounter])
  /\ invocations (snd (_time_call fn n [])) = 1%nat.
Proof.
  intros Hn. rewrite !_time_call_run.
  assert (H0 : Z.to_nat n = 0%nat) by lia.
  split.
  - unfold true_div, elapsed, tic_at, toc_at, time_call_events.
    rewrite H0. cbn [repeat List.concat app].
    now destruct (n =? 0).
  - cbn [snd app]. rewrite invocations_time_call. lia.
Qed.

Lemma count_none (p : Event -> bool) (l : list Event) :
  (forall e, In e l -> p e = false) -> List.length (filter p l) = 0%nat.
Proof.
  induction l as [| e l IH]; intros H; [reflexivity |].
  cbn [filter]. rewrite (H e (or_introl eq_refl)).
  apply IH. intros e' Hin. apply H. now right.
Qed.

Lemma clock_reads_app (l1 l2 : list Event) :
  clock_reads (l1 ++ l2) = (clock_reads l1 + clock_reads l2)%nat.
Proof. unfold clock_reads. now rewrite filter_app, length_app. Qed.

Lemma generations_app (l1 l2 : list Event) :
  generations (l1 ++ l2) = (generations l1 + generations l2)%nat.
Proof. unfold generations. now rewrite filter_app, length_app. Qed.

Lemma banners_app (l1 l2 : list Event) :
  banners (l1 ++ l2) = banners l1 ++ banners l2.
Proof. apply flat_map_app. Qed.

Lemma clock_reads_time_call (fn : Callable) (n : Z) :
  clock_reads (time_call_events fn n) = 2%nat.
Proof.
  unfold time_call_events. rewrite !clock_reads_app.
  replace (clock_reads (List.concat (repeat (one_call fn) (Z.to_nat n))))
    with 0%nat; [reflexivity |].
  symmetry. apply count_none. intros e Hin.
  apply in_concat in Hin. destruct Hin as (l & Hl & He).
  apply repeat_spec in Hl. subst l. cbn in He.
  destruct He as [<- | [<- | []]]; reflexivity.
Qed.

Lemma generations_time_call (fn : Callable) (n : Z) :
  generations (time_call_events fn n) = 0%nat.
Proof.
  apply count_none. intros e Hin.
  destruct (in_time_call_events fn n e Hin) as [-> | [-> | ->]]; reflexivity.
Qed.

Lemma banners_none (l : list Event) :
  (forall e, In e l -> forall name kind, e <> EvPrint (LineBanner name kind)) ->
  banners l = [].
Proof.
  induction l as [| e l IH]; intros H; [reflexivity |].
  cbn [banners flat_map]. fold (banners l).
  rewrite IH by (intros e' Hin; apply H; now right).
  destruct e as [| | | | | | | [name kind | |]]; try reflexivity.
  exfalso. exact (H _ (or_introl eq_refl) name kind eq_refl).
Qed.

Lemma banners_time_call (fn : Callable) (n : Z) :
  banners (time_call_events fn n) = [].
Proof.
  apply banners_none. intros e Hin name kind.
  destruct (in_time_call_events fn n e Hin) as [-> | [-> | ->]]; discriminate.
Qed.

(** The generators are called once: the trace of [generate] is one
    event. *)
Lemma generate_one (a : BenchmarkArgs) (q k v : Array) (pt : option Array)
    (b : Bias) (gen : list Event) :
  generate a [] = (Ok (q, k, v, pt, b), gen) ->
  exists e, gen = [e] /\ is_generate e = true.
Proof.
  unfold generate.
  destruct (is_PagedKVCache (kv_cache_type a)).
  - destruct (page_size a) as [ps |]; [| discriminate].
    unfold bind, emit.
    destruct (generate_paged_attention_data _ ps) as [[[[q' k'] v'] pt'] b'].
    cbn. intros H. injection H as _ _ _ _ _ <-. eauto.
  - unfold bind, emit.
    destruct (generate_attention_data _) as [[[q' k'] v'] b'].
    cbn. intros H. injection H as _ _ _ _ _ <-. eauto.
Qed.

Lemma timed_pair_counts (f1 f2 : Callable) (line : float -> float -> Line)
    (t : list Event) :
  (forall x y name kind, line x y <> LineBanner name kind) ->
  invocations (timed_pair f1 f2 line t) = 12%nat
  /\ clock_reads (timed_pair f1 f2 line t) = 4%nat
  /\ generations (timed_pair f1 f2 line t) = 0%nat
  /\ banners (timed_pair f1 f2 line t) = [].
Proof.
  intros Hline. unfold timed_pair.
  rewrite !invocations_app, !clock_reads_app, !generations_app, !banners_app,
    !invocations_time_call, !clock_reads_time_call, !generations_time_call,
    !banners_time_call.
  repeat split.
  cbn [app]. apply banners_none. intros e [<- | []] name kind H.
  injection H as H. exact (Hline _ _ _ _ H).
Qed.

(** What one run of [_benchmark] costs. *)
Lemma _benchmark_counts (a : BenchmarkArgs) (t : list Event) :
  supported (kv_cache_type a) = true ->
  (kv_cache_type a = Some PagedKVCache -> page_size a <> None) ->
  exists e evs,
    _benchmark a t = (Ok tt, t ++ e :: evs)
    /\ is_generate e = true
    /\ invocations (e :: evs)
       = match kv_cache_type a with None => 24%nat | Some _ => 12%nat end
    /\ clock_reads (e :: evs)
       = match kv_cache_type a with None => 8%nat | Some _ => 4%nat end
    /\ generations (e :: evs) = 1%nat
    /\ banners (e :: evs) = [].
Proof.
  intros Hsup Hps.
  destruct (generate_ok a Hps) as (q & k & v & pt & b & gen & Hgen & _ & _).
  destruct (generate_one a q k v pt b gen Hgen) as (e & -> & He).
  rewrite (_benchmark_run a t q k v pt b [e] Hsup Hgen).
  exists e. eexists. split; [cbn [app]; reflexivity |].
  split; [exact He |].
  assert (Hfwd : forall x y name kind, LineFwd x y <> LineBanner name kind)
    by discriminate.
  assert (Hbwd : forall x y name kind, LineBwd x y <> LineBanner name kind)
    by discriminate.
  change (e :: ?l) with ([e] ++ l).
  destruct (kv_cache_type a) as [c |];
    rewrite !invocations_app, !clock_reads_app, !generations_app, !banners_app;
    rewrite ?(proj1 (timed_pair_counts _ _ LineFwd _ Hfwd)),
      ?(proj1 (proj2 (timed_pair_counts _ _ LineFwd _ Hfwd))),
      ?(proj1 (proj2 (proj2 (timed_pair_counts _ _ LineFwd _ Hfwd)))),
      ?(proj2 (proj2 (proj2 (timed_pair_counts _ _ LineFwd _ Hfwd)))),
      ?(proj1 (timed_pair_counts _ _ LineBwd _ Hbwd)),
      ?(proj1 (proj2 (timed_pair_counts _ _ LineBwd _ Hbwd))),
      ?(proj1 (proj2 (proj2 (timed_pair_counts _ _ LineBwd _ Hbwd)))),
      ?(proj2 (proj2 (proj2 (timed_pair_counts _ _ LineBwd _ Hbwd))));
    destruct e; try discriminate He; repeat split.
Qed.

(** A run of [_benchmark] that passes the argument checks generates data
    once, as its first call, and then calls the attention implementations
    twelve times and reads the clock four times; with
    [kv_cache_type=None] the backward passes double both numbers. *)
Theorem _benchmark_cost (a : BenchmarkArgs) (t : list Event) :
  supported (kv_cache_type a) = true ->
  (kv_cache_type a = Some PagedKVCache -> page_size a <> None) ->
  exists e evs,
    _benchmark a t = (Ok tt, t ++ e :: evs)
    /\ is_generate e = true
    /\ generations (e :: evs) = 1%nat
    /\ invocations (e :: evs)
       = match kv_cache_type a with None => 24%nat | Some _ => 12%nat end
    /\ clock_reads (e :: evs)
       = match kv_cache_type a with None => 8%nat | Some _ => 4%nat end.
Proof.
  intros Hsup Hps.
  destruct (_benchmark_counts a t Hsup Hps)
    as (e & evs & H1 & H2 & H3 & H4 & H5 & _).
  exists e, evs. auto.
Qed.

(** Which data [_benchmark] generates outside the paged case: for decoding
    ([KVCache]) one query position at offset [seq_len - 1], otherwise the
    whole sequence at offset 0, against [seq_len] keys in both cases.  The
    number of kv heads is [num_heads] unless a non-zero [num_kv_heads] is
    given, and the causal mask is passed only when [causal] is set and no
    non-zero [sliding_window_size] is. *)
Theorem _benchmark_generated_data (a : BenchmarkArgs) (t : list Event) :
  kv_cache_type a = None \/ kv_cache_type a = Some KVCache ->
  exists args evs,
    _benchmark a t = (Ok tt, t ++ EvGenerateAttentionData args :: evs)
    /\ a_query_len args
       = match kv_cache_type a with None => seq_len a | Some _ => 1 end
    /\ a_query_offset args
       = match kv_cache_type a with None => 0 | Some _ => seq_len a - 1 end
    /\ a_kv_len args = seq_len a
    /\ a_batch_size args = batch_size a
    /\ a_num_heads args = num_heads a
    /\ (a_num_kv_heads args = num_heads a
        <-> num_kv_heads a = None \/ num_kv_heads a = Some 0
            \/ num_kv_heads a = Some (num_heads a))
    /\ (a_mask_fn args = Some causal_mask
        <-> causal a = true
            /\ (sliding_window_size a = None \/ sliding_window_size a = Some 0)).
Proof.
  intros Hkv.
  assert (Hsup : supported (kv_cache_type a) = true)
    by (destruct Hkv as [-> | ->]; reflexivity).
  assert (Hnp : is_PagedKVCache (kv_cache_type a) = false)
    by (destruct Hkv as [-> | ->]; reflexivity).
  pose (args := data_args a
                  (if is_KVCache (kv_cache_type a) then 1 else seq_len a)
                  (if is_KVCache (kv_cache_type a) then seq_len a - 1 else 0)).
  destruct (generate_attention_data args) as [[[q k] v] b] eqn:Hdata.
  assert (Hgen : generate a [] = (Ok (q, k, v, None, b),
                                  [EvGenerateAttentionData args])).
  { unfold generate. rewrite Hnp, bind_emit. fold args. now rewrite Hdata. }
  rewrite (_benchmark_run a t q k v None b _ Hsup Hgen).
  exists args. eexists. split; [cbn [app]; reflexivity |].
  subst args. cbn [data_args a_query_len a_query_offset a_kv_len
                     a_batch_size a_num_heads a_num_kv_heads a_mask_fn].
  split; [destruct Hkv as [-> | ->]; reflexivity |].
  split; [destruct Hkv as [-> | ->]; reflexivity |].
  split; [reflexivity |]. split; [reflexivity |]. split; [reflexivity |].
  split; split.
  - unfold or_int. destruct (num_kv_heads a) as [n |]; [| auto].
    destruct (n =? 0) eqn:Hn.
    + apply Z.eqb_eq in Hn. subst n. auto.
    + intros ->. auto.
  - unfold or_int. intros [-> | [-> | ->]]; try reflexivity.
    now destruct (num_heads a =? 0).
  - unfold mask_fn_of, truthy. destruct (causal a); [| discriminate].
    destruct (sliding_window_size a) as [w |]; [| auto].
    destruct (w =? 0) eqn:Hw; [| discriminate].
    apply Z.eqb_eq in Hw. subst w. auto.
  - unfold mask_fn_of. intros [-> [-> | ->]]; reflexivity.
Qed.

(** The cost of the loop of the script over any list of configurations. *)
Lemma milestones_app (l1 l2 : list Event) :
  milestones (l1 ++ l2) = milestones l1 ++ milestones l2.
Proof. apply filter_app. Qed.

(** The milestones of the run of [_benchmark] on the arguments the script
    passes for [cfg]. *)
Lemma _benchmark_script_milestones (cfg : BenchConfig) (t evs : list Event) :
  _benchmark (main_args cfg) t = (Ok tt, t ++ evs) ->
  milestones evs = benchmark_milestones cfg.
Proof.
  assert (Hargs : data_args (main_args cfg) 1 (seq_len (main_args cfg) - 1)
                  = script_data_args cfg) by reflexivity.
  unfold benchmark_milestones.
  destruct (generate_attention_data (script_data_args cfg))
    as [[[q k] v] b] eqn:Hdata.
  assert (Hgen : generate (main_args cfg) []
                 = (Ok (q, k, v, None, b),
                    [EvGenerateAttentionData (script_data_args cfg)])).
  { unfold generate. cbn [main_args kv_cache_type is_PagedKVCache is_KVCache].
    rewrite bind_emit, Hargs, Hdata. reflexivity. }
  rewrite (_benchmark_run (main_args cfg) t q k v None b _ eq_refl Hgen).
  intros H. injection H as H. apply app_inv_head in H. subst evs.
  reflexivity.
Qed.

(** The cost of the loop of the script over any list of configurations. *)
Lemma main_loop_counts (device_kind : string)
    (configs : list (string * BenchConfig)) :
  forall t, exists evs,
    main_loop device_kind configs t = (Ok tt, t ++ evs)
    /\ banners evs = map fst configs
    /\ invocations evs = (12 * List.length configs)%nat
    /\ generations evs = List.length configs
    /\ milestones evs = flat_map (config_milestones device_kind) configs.
Proof.
  induction configs as [| [name cfg] rest IH]; intros t; cbn [main_loop].
  - exists []. unfold ret. now rewrite app_nil_r.
  - rewrite bind_emit.
    destruct (_benchmark_counts (main_args cfg)
                (t ++ [EvPrint (LineBanner name device_kind)])
                eq_refl ltac:(discriminate))
      as (e & evs1 & Hrun & _ & Hi & _ & Hg & Hb).
    assert (Hm := _benchmark_script_milestones cfg _ _ Hrun).
    erewrite bind_run by exact Hrun.
    destruct (IH ((t ++ [EvPrint (LineBanner name device_kind)]) ++ e :: evs1))
      as (evs2 & Hrest & Hb2 & Hi2 & Hg2 & Hm2).
    rewrite Hrest.
    exists ([EvPrint (LineBanner name device_kind)] ++ (e :: evs1) ++ evs2).
    rewrite !banners_app, !invocations_app, !generations_app, !milestones_app,
      Hb, Hi, Hg, Hb2, Hi2, Hg2, Hm, Hm2.
    rewrite <- !app_assoc. cbn [main_args kv_cache_type map fst List.length].
    repeat split. cbn. lia.
Qed.

(** On a TPU backend with a device, the script announces and benchmarks the
    six configurations once each, in the order of [_BENCHMARK_CONFIGS]:
    after the banner of a configuration, decoding data of that
    configuration's shape is generated and the reference and the flash
    forward pass are called on it six times each, before the next banner.
    That makes six generations and 72 calls in all. *)
Theorem main_benchmarks_every_configuration_in_order (t : list Event)
    (device_kind : string) (others : list string) :
  default_backend = "tpu"%string ->
  device_kinds = device_kind :: others ->
  exists evs,
    main t = (Ok tt, t ++ evs)
    /\ milestones evs
       = flat_map (config_milestones device_kind) _BENCHMARK_CONFIGS
    /\ banners evs
       = ["1.2b"; "12.6b"; "29.6b"; "65.2b"; "134b"; "261.7b"]%string
    /\ generations evs = 6%nat
    /\ invocations evs = 72%nat.
Proof.
  intros Hb Hd. unfold main, first_device_kind.
  rewrite Hb, Hd. cbn [String.eqb Ascii.eqb Bool.eqb py_assert].
  rewrite bind_ret, bind_lift_ok.
  destruct (main_loop_counts device_kind _BENCHMARK_CONFIGS t)
    as (evs & Hrun & H1 & H2 & H3 & H4).
  exists evs. auto.
Qed.

End Bench.

Import Examples.
#[local] Existing Instance tick_numerics.

Lemma _time_call_without_timed_calls_witness :
  0 <= 0
  /\ _time_call (W := tick_world "tpu") (OtherCallable "f") 0 []
     = (Raise ZeroDivisionError,
        [EvCall (OtherCallable "f"); EvBlockUntilReady [];
         EvPerfCounter; EvPerfCounter])
  /\ invocations (snd (_time_call (W := tick_world "tpu") (OtherCallable "f") 0 []))
     = 1%nat.
Proof.
  assert (H : 0 <= 0) by lia.
  exact (conj H (_time_call_without_timed_calls (W := tick_world "tpu")
                   (OtherCallable "f") 0 [] H)).
Defined.

Lemma _benchmark_cost_witness :
  exists e evs,
    _benchmark (W := tick_world "tpu") (sample_args None) [] = (Ok tt, [] ++ e :: evs)
    /\ is_generate e = true
    /\ generations (e :: evs) = 1%nat
    /\ invocations (e :: evs) = 24%nat
    /\ clock_reads (e :: evs) = 8%nat.
Proof.
  apply (_benchmark_cost (W := tick_world "tpu") (sample_args None) []).
  - reflexivity.
  - discriminate.
Defined.

Lemma _benchmark_generated_data_witness :
  exists args evs,
    _benchmark (W := tick_world "tpu") (sample_args (Some KVCache)) []
    = (Ok tt, [] ++ EvGenerateAttentionData args :: evs)
    /\ a_query_len args = 1
    /\ a_query_offset args = 8192 - 1
    /\ a_kv_len args = 8192
    /\ a_batch_size args = 2
    /\ a_num_heads args = 16
    /\ (a_num_kv_heads args = 16
        <-> @None Z = None \/ @None Z = Some 0 \/ @None Z = Some 16)
    /\ (a_mask_fn args = Some causal_mask
        <-> true = true /\ (Some 4096 = @None Z \/ Some 4096 = Some 0)).
Proof.
  apply (_benchmark_generated_data (W := tick_world "tpu")
           (sample_args (Some KVCache)) []).
  right. reflexivity.
Defined.

Lemma main_benchmarks_every_configuration_in_order_witness :
  exists evs,
    main (W := tick_world "tpu") [] = (Ok tt, [] ++ evs)
    /\ milestones evs
       = flat_map (config_milestones (W := tick_world "tpu") "TPU v5")
           _BENCHMARK_CONFIGS
    /\ banners evs
       = ["1.2b"; "12.6b"; "29.6b"; "65.2b"; "134b"; "261.7b"]%string
    /\ generations evs = 6%nat
    /\ invocations evs = 72%nat.
Proof.
  apply (main_benchmarks_every_configuration_in_order
           (W := tick_world "tpu") [] "TPU v5" []); reflexivity.
Defined.

End BenchmarkMore.
